(** * vscode-mariana: the colour model and the palettes

    A shallow embedding of [colour/colour.py] and [colour/palette.py].

    Numbers.  The hue and the red, green and blue channels are Python
    [int]s and are modelled by [Z].  Saturation, lightness and alpha are
    annotated [Decimal] and receive ints or floats.  Floating point is
    idealised: these numbers are exact rationals [Q], and [/], [%],
    [round(x)] and [round(x, 2)] are the exact operations, [round] with
    ties to even as in Python.  Numeric equality ([==]) is [Qeq].

    Fallible code returns a [result]: the value, or the exception raised.
    Methods are functions of the instance's fields; where a property is
    about instances as objects, they live in a store. *)

From Stdlib Require Import ZArith QArith Qround Qabs Lia Lqa Bool.
From Stdlib Require Import String Ascii List.
From stdpp Require Import gmap.
Import ListNotations.

Local Open Scope Z_scope.
Local Open Scope Q_scope.

(** ** Exceptions and results *)

(** [ValueError field value range] stands for the message
    [f'{field} {value} not in range {range}'] of the constructors. *)
Inductive exn : Type :=
| TypeError
| AttributeError
| ZeroDivisionError
| ValueError (field : string) (value : Q) (range : string).

Inductive result (A : Type) : Type :=
| Ok (a : A)
| Raise (e : exn).
Arguments Ok {A} a.
Arguments Raise {A} e.

#[global] Instance result_ret : MRet result := fun A a => Ok a.

#[global] Instance result_bind : MBind result := fun A B k m =>
  match m with
  | Ok a => k a
  | Raise e => Raise e
  end.

(** An operand that is [None] makes Python arithmetic raise [TypeError]. *)
Definition operand {A : Type} (o : option A) : result A :=
  match o with
  | Some v => Ok v
  | None => Raise TypeError
  end.

(** ** Python arithmetic on exact numbers *)

Definition Qltb (x y : Q) : bool := negb (Qle_bool y x).

(** [x / y]: true division, [ZeroDivisionError] on a zero divisor. *)
Definition py_div (x y : Q) : result Q :=
  if Qeq_bool y 0 then Raise ZeroDivisionError else Ok (x / y).

(** [x % y] for [y > 0]: the remainder has the sign of the divisor. *)
Definition py_mod (x y : Q) : Q := x - y * inject_Z (Qfloor (x / y)).

(** [round(x)]: nearest integer, ties to the even one. *)
Definition py_round (x : Q) : Z :=
  let f := Qfloor x in
  match Qcompare (x - inject_Z f) (1 # 2) with
  | Lt => f
  | Gt => (f + 1)%Z
  | Eq => if Z.even f then f else (f + 1)%Z
  end.

(** [round(x, 2)]. *)
Definition py_round2 (x : Q) : Q := inject_Z (py_round (x * 100)) / 100.

(** [max(a, b, c)] and [min(a, b, c)]: the first extremal argument. *)
Definition py_max3 (a b c : Q) : Q :=
  let m := if Qltb a b then b else a in
  if Qltb m c then c else m.

Definition py_min3 (a b c : Q) : Q :=
  let m := if Qltb b a then b else a in
  if Qltb c m then c else m.

(** Truthiness of an optional number: [None] and [0] are falsy. *)
Definition truthyZ (o : option Z) : bool :=
  match o with
  | Some v => negb (v =? 0)%Z
  | None => false
  end.

Definition truthyQ (o : option Q) : bool :=
  match o with
  | Some v => negb (Qeq_bool v 0)
  | None => false
  end.

(** [lo <= v <= hi]. *)
Definition betweenZ (lo hi v : Z) : bool := ((lo <=? v) && (v <=? hi))%Z.
Definition betweenQ (lo hi v : Q) : bool := Qle_bool lo v && Qle_bool v hi.

(** ** The two dataclasses *)

Record hsla : Type := mk_hsla {
  hsla_h : option Z;
  hsla_s : option Q;
  hsla_l : option Q;
  hsla_a : option Q
}.

Record rgba : Type := mk_rgba {
  rgba_r : option Z;
  rgba_g : option Z;
  rgba_b : option Z;
  rgba_a : option Q
}.

(** The class attributes: every field defaults to [None]. *)
Definition hsla_default : hsla := mk_hsla None None None None.
Definition rgba_default : rgba := mk_rgba None None None None.

Definition hue_range : string := "[0, 359]".
Definition percent_range : string := "[0, 100] or [0.0, 1.0]".
Definition byte_range : string := "[0, 255]".

(** One guard [if v and not lo<=v<=hi: raise ValueError(...)]. *)
Definition checkZ (field range : string) (lo hi : Z) (o : option Z) : result unit :=
  match o with
  | Some v =>
      if truthyZ o && negb (betweenZ lo hi v)
      then Raise (ValueError field (inject_Z v) range)
      else Ok tt
  | None => Ok tt
  end.

Definition checkQ (field range : string) (lo hi : Q) (o : option Q) : result unit :=
  match o with
  | Some v =>
      if truthyQ o && negb (betweenQ lo hi v)
      then Raise (ValueError field v range)
      else Ok tt
  | None => Ok tt
  end.

(** [v/100 if v>1 else v]. *)
Definition unit_scale (v : Q) : Q := if Qltb 1 v then v / 100 else v.

(** [if v is not None: self.f = ...]: the field keeps its old value
    when the argument is [None]. *)
Definition assign {A : Type} (f : A -> A) (arg old : option A) : option A :=
  match arg with
  | Some v => Some (f v)
  | None => old
  end.

(** [hsla.__init__] run on the instance [self]. *)
Definition hsla_init (self : hsla) (h : option Z) (s l a : option Q) : result hsla :=
  _ ← checkZ "hue" hue_range 0 359 h;
  _ ← checkQ "saturation" percent_range 0 100 s;
  _ ← checkQ "lightness" percent_range 0 100 l;
  _ ← checkQ "alpha" percent_range 0 100 a;
  Ok (mk_hsla (assign (fun v => v) h (hsla_h self))
              (assign unit_scale s (hsla_s self))
              (assign unit_scale l (hsla_l self))
              (assign unit_scale a (hsla_a self))).

(** [rgba.__init__] run on the instance [self]. *)
Definition rgba_init (self : rgba) (r g b : option Z) (a : option Q) : result rgba :=
  _ ← checkZ "red" byte_range 0 255 r;
  _ ← checkZ "green" byte_range 0 255 g;
  _ ← checkZ "blue" byte_range 0 255 b;
  _ ← checkQ "alpha" percent_range 0 100 a;
  Ok (mk_rgba (assign (fun v => v) r (rgba_r self))
              (assign (fun v => v) g (rgba_g self))
              (assign (fun v => v) b (rgba_b self))
              (assign unit_scale a (rgba_a self))).

(** The constructor calls [hsla(h, s, l, a)] and [rgba(r, g, b, a)]:
    [__init__] on a fresh instance.  The check that [abc] makes before
    an instance is created is modelled apart, in [Abc.instantiate]. *)
Definition hsla_new (h : option Z) (s l a : option Q) : result hsla :=
  hsla_init hsla_default h s l a.

Definition rgba_new (r g b : option Z) (a : option Q) : result rgba :=
  rgba_init rgba_default r g b a.

(** ** Conversions *)

(** The sextant table of [hsla.to_rgba], in the order of the dict. *)
Definition sextant_table (C X : Q) : list ((Z * Z) * (Q * Q * Q)) :=
  [ ((0, 60)%Z, (C, X, 0));
    ((60, 120)%Z, (X, C, 0));
    ((120, 180)%Z, (0, C, X));
    ((180, 240)%Z, (0, X, C));
    ((240, 300)%Z, (X, 0, C));
    ((300, 360)%Z, (C, 0, X)) ].

(** The [for] loop over the table: rows that fail [lo <= h < hi] are
    skipped, the first other row is converted and returned; the loop
    running out leaves the function without a [return]. *)
Fixpoint sextant_loop (h : Z) (m : Q) (a : option Q)
    (rows : list ((Z * Z) * (Q * Q * Q))) : result (option rgba) :=
  match rows with
  | [] => Ok None
  | ((lo, hi), (r_, g_, b_)) :: rest =>
      if negb ((lo <=? h) && (h <? hi))%Z then sextant_loop h m a rest
      else
        c ← rgba_new (Some (py_round ((r_ + m) * 255)))
                     (Some (py_round ((g_ + m) * 255)))
                     (Some (py_round ((b_ + m) * 255)))
                     a;
        Ok (Some c)
  end.

(** The row of the table that the loop reaches for a hue of [[0, 360)]
    (see [sextant_loop_row]). *)
Definition sextant_row (C X : Q) (h : Z) : Q * Q * Q :=
  if (h <? 60)%Z then (C, X, 0)
  else if (h <? 120)%Z then (X, C, 0)
  else if (h <? 180)%Z then (0, C, X)
  else if (h <? 240)%Z then (0, X, C)
  else if (h <? 300)%Z then (X, 0, C)
  else (C, 0, X).

Definition chroma (s l : Q) : Q := (1 - Qabs (2 * l - 1)) * s.
Definition second_component (C : Q) (h : Z) : Q :=
  C * (1 - Qabs (py_mod (inject_Z h / 60) 2 - 1)).

(** [hsla.to_rgba]. *)
Definition hsla_to_rgba (self : hsla) : result (option rgba) :=
  l ← operand (hsla_l self);
  s ← operand (hsla_s self);
  let C := chroma s l in
  h ← operand (hsla_h self);
  let X := second_component C h in
  let m := l - C / 2 in
  sextant_loop h m (hsla_a self) (sextant_table C X).

(** [rgba.normalise]. *)
Definition normalise (self : rgba) : result (Q * Q * Q) :=
  r ← operand (rgba_r self);
  g ← operand (rgba_g self);
  b ← operand (rgba_b self);
  Ok (inject_Z r / 255, inject_Z g / 255, inject_Z b / 255).

(** The argument of [round] in the hue of [rgba.to_hsla]; the last
    [else None] makes [round] raise [TypeError]. *)
Definition hue_expr (r_ g_ b_ C_max delta : Q) : result Q :=
  if Qeq_bool delta 0 then Ok 0
  else if Qeq_bool C_max r_ then
    q ← py_div (g_ - b_) delta; Ok (60 * py_mod q 6)
  else if Qeq_bool C_max g_ then
    q ← py_div (b_ - r_) delta; Ok (60 * (q + 2))
  else if Qeq_bool C_max b_ then
    q ← py_div (r_ - g_) delta; Ok (60 * (q + 4))
  else Raise TypeError.

(** The body of [rgba.to_hsla] up to its [return]: the values [H],
    [S] and [L]. *)
Definition hsl_of (self : rgba) : result (Z * Q * Q) :=
  '(r_, g_, b_) ← normalise self;
  let C_max := py_max3 r_ g_ b_ in
  let C_min := py_min3 r_ g_ b_ in
  let delta := C_max - C_min in
  x ← hue_expr r_ g_ b_ C_max delta;
  let H := py_round x in
  let L := py_round2 ((C_max + C_min) / 2) in
  q ← py_div delta (1 - Qabs (2 * L - 1));
  let S := py_round2 q in
  Ok (H, S, L).

(** [rgba.to_hsla]: [return hsla(H, S, L, self.a)]. *)
Definition rgba_to_hsla (self : rgba) : result hsla :=
  '(H, S', L) ← hsl_of self;
  hsla_new (Some H) (Some S') (Some L) (rgba_a self).

(** The share of the chroma that each channel receives at the hue
    [60 * t] degrees, [0 <= t <= 6]: the piecewise linear functions
    that the sextant table samples. *)
Definition weight_r (t : Q) : Q :=
  if Qle_bool t 1 then 1 else if Qle_bool t 2 then 2 - t
  else if Qle_bool t 4 then 0 else if Qle_bool t 5 then t - 4 else 1.

Definition weight_g (t : Q) : Q :=
  if Qle_bool t 1 then t else if Qle_bool t 3 then 1
  else if Qle_bool t 4 then 4 - t else 0.

Definition weight_b (t : Q) : Q :=
  if Qle_bool t 2 then 0 else if Qle_bool t 3 then t - 2
  else if Qle_bool t 5 then 1 else 6 - t.

(** ** The Colour capability *)

(** [to_hsla] and [to_rgba] are what a variant supplies. *)
Class Colour (A : Type) : Type := {
  to_hsla : A -> result hsla;
  to_rgba : A -> result (option rgba)
}.

#[global] Instance hsla_Colour : Colour hsla := {|
  to_hsla := fun self => Ok self;
  to_rgba := hsla_to_rgba
|}.

#[global] Instance rgba_Colour : Colour rgba := {|
  to_hsla := rgba_to_hsla;
  to_rgba := fun self => Ok (Some self)
|}.

Definition hex_digit (d : Z) : ascii :=
  match d with
  | 0 => "0" | 1 => "1" | 2 => "2" | 3 => "3" | 4 => "4" | 5 => "5"
  | 6 => "6" | 7 => "7" | 8 => "8" | 9 => "9" | 10 => "a" | 11 => "b"
  | 12 => "c" | 13 => "d" | 14 => "e" | _ => "f"
  end%Z%char.

Fixpoint hex_digits (fuel : nat) (n : Z) (acc : string) : string :=
  match fuel with
  | O => acc
  | S fuel' =>
      let acc' := String (hex_digit (n mod 16)) acc in
      if (n / 16 =? 0)%Z then acc' else hex_digits fuel' (n / 16) acc'
  end.

(** Lowercase hexadecimal digits of [n >= 0]. *)
Definition hex (n : Z) : string :=
  hex_digits (S (Z.to_nat (Z.log2 n))) n EmptyString.

Fixpoint zeros (k : nat) : string :=
  match k with
  | O => EmptyString
  | S k' => String "0" (zeros k')
  end.

Definition zfill (width : nat) (s : string) : string :=
  (zeros (width - String.length s) ++ s)%string.

(** [f'{n:02x}']: the sign counts in the width. *)
Definition format_02x (n : Z) : string :=
  if (n <? 0)%Z then String "-" (zfill 1 (hex (- n))) else zfill 2 (hex n).

(** [Colour.to_hex], written once for every variant. *)
Definition to_hex {A : Type} `{Colour A} (self : A) : result string :=
  c ← to_rgba self;
  match c with
  | None => Raise AttributeError
  | Some c =>
      alpha ← match rgba_a c with
              | Some a =>
                  if negb (Qeq_bool a 1)
                  then Ok (format_02x (py_round (a * 255)))
                  else Ok EmptyString
              | None => Ok EmptyString
              end;
      r ← operand (rgba_r c);
      g ← operand (rgba_g c);
      b ← operand (rgba_b c);
      Ok (String "#" (format_02x r ++ format_02x g ++ format_02x b ++ alpha))%string
  end.

(** The two round trips: [c.to_hsla().to_rgba()] and
    [v.to_rgba().to_hsla()]; a [to_rgba] that returned [None] has no
    [to_hsla] attribute. *)
Definition rgba_round_trip (c : rgba) : result (option rgba) :=
  v ← to_hsla c; to_rgba v.

Definition hsla_round_trip (v : hsla) : result hsla :=
  c ← to_rgba v;
  match c with
  | Some c => to_hsla c
  | None => Raise AttributeError
  end.

(** Reading hex back, to state what [to_hex] prints: the value of a
    lowercase hexadecimal digit, and of a string of exactly two. *)
Definition hex_value (c : ascii) : option Z :=
  match index 0 (String c EmptyString) "0123456789abcdef" with
  | Some i => Some (Z.of_nat i)
  | None => None
  end.

Definition byte_of_hex (s : string) : option Z :=
  match s with
  | String c1 (String c2 EmptyString) =>
      match hex_value c1, hex_value c2 with
      | Some d1, Some d2 => Some (16 * d1 + d2)%Z
      | _, _ => None
      end
  | _ => None
  end.

(** ** clone *)

(** [x if x is not None else self.x]. *)
Definition or_field {A : Type} (arg field : option A) : option A :=
  match arg with
  | Some v => Some v
  | None => field
  end.

(** [hsla.clone]: a constructor call on the chosen arguments. *)
Definition hsla_clone (self : hsla) (h : option Z) (s l a : option Q) : result hsla :=
  hsla_new (or_field h (hsla_h self)) (or_field s (hsla_s self))
           (or_field l (hsla_l self)) (or_field a (hsla_a self)).

(** [hsla.__call__]. *)
Definition hsla_call (self : hsla) (h : option Z) (s l a : option Q) : result hsla :=
  hsla_clone self h s l a.

(** [rgba.clone]. *)
Definition rgba_clone (self : rgba) (r g b : option Z) (a : option Q) : result rgba :=
  rgba_new (or_field r (rgba_r self)) (or_field g (rgba_g self))
           (or_field b (rgba_b self)) (or_field a (rgba_a self)).

(** *** Instances in the store

    Dataclass instances are mutable objects.  The store maps the
    address of every live instance to its fields; a constructor call
    allocates a fresh address and [__init__] fills it. *)

Inductive colour : Type :=
| HSLA (v : hsla)
| RGBA (v : rgba).

Abbreviation store := (gmap nat colour).

Definition alloc (σ : store) (o : colour) : nat * store :=
  let ℓ := fresh (dom σ) in (ℓ, <[ℓ := o]> σ).

(** [receiver.clone(...)] for the instance at address [ℓ]: the class of
    the receiver chooses the constructor. *)
Definition hsla_clone_at (σ : store) (ℓ : nat) (h : option Z) (s l a : option Q)
    : result (nat * store) :=
  match σ !! ℓ with
  | Some (HSLA self) => v ← hsla_clone self h s l a; Ok (alloc σ (HSLA v))
  | _ => Raise AttributeError
  end.

Definition rgba_clone_at (σ : store) (ℓ : nat) (r g b : option Z) (a : option Q)
    : result (nat * store) :=
  match σ !! ℓ with
  | Some (RGBA self) => v ← rgba_clone self r g b a; Ok (alloc σ (RGBA v))
  | _ => Raise AttributeError
  end.

(** The fields a validated instance holds. *)
Definition unit_fraction (o : option Q) : Prop :=
  match o with
  | Some v => 0 <= v <= 1
  | None => True
  end.

Definition in_bound (lo hi : Z) (o : option Z) : Prop :=
  match o with
  | Some v => (lo <= v <= hi)%Z
  | None => True
  end.

Definition hsla_valid (v : hsla) : Prop :=
  in_bound 0 359 (hsla_h v) /\ unit_fraction (hsla_s v) /\
  unit_fraction (hsla_l v) /\ unit_fraction (hsla_a v).

Definition rgba_valid (v : rgba) : Prop :=
  in_bound 0 255 (rgba_r v) /\ in_bound 0 255 (rgba_g v) /\
  in_bound 0 255 (rgba_b v) /\ unit_fraction (rgba_a v).

(** The documented bound of an argument, as the constructors accept it. *)
Definition percent_ok (o : option Q) : Prop :=
  match o with
  | Some v => 0 <= v <= 100
  | None => True
  end.

(** The arguments of a constructor call that are inside their
    documented bounds ([None]: not supplied). *)
Definition hsla_args_ok (h : option Z) (s l a : option Q) : Prop :=
  in_bound 0 359 h /\ percent_ok s /\ percent_ok l /\ percent_ok a.

Definition rgba_args_ok (r g b : option Z) (a : option Q) : Prop :=
  in_bound 0 255 r /\ in_bound 0 255 g /\ in_bound 0 255 b /\ percent_ok a.

(** [field], [value] and [range] describe a supplied argument that is
    outside its bound. *)
Definition hsla_offence (h : option Z) (s l a : option Q)
    (field : string) (value : Q) (range : string) : Prop :=
  (field = "hue"%string /\ range = hue_range /\
   exists v, h = Some v /\ value = inject_Z v /\ ~ (0 <= v <= 359)%Z) \/
  (field = "saturation"%string /\ range = percent_range /\
   s = Some value /\ ~ (0 <= value <= 100)) \/
  (field = "lightness"%string /\ range = percent_range /\
   l = Some value /\ ~ (0 <= value <= 100)) \/
  (field = "alpha"%string /\ range = percent_range /\
   a = Some value /\ ~ (0 <= value <= 100)).

Definition rgba_offence (r g b : option Z) (a : option Q)
    (field : string) (value : Q) (range : string) : Prop :=
  (field = "red"%string /\ range = byte_range /\
   exists v, r = Some v /\ value = inject_Z v /\ ~ (0 <= v <= 255)%Z) \/
  (field = "green"%string /\ range = byte_range /\
   exists v, g = Some v /\ value = inject_Z v /\ ~ (0 <= v <= 255)%Z) \/
  (field = "blue"%string /\ range = byte_range /\
   exists v, b = Some v /\ value = inject_Z v /\ ~ (0 <= v <= 255)%Z) \/
  (field = "alpha"%string /\ range = percent_range /\
   a = Some value /\ ~ (0 <= value <= 100)).

(** Field-wise numeric equality, the [==] of the dataclasses. *)
Definition opt_Qeq (x y : option Q) : Prop :=
  match x, y with
  | Some p, Some q => p == q
  | None, None => True
  | _, _ => False
  end.

Definition hsla_eq (x y : hsla) : Prop :=
  hsla_h x = hsla_h y /\ opt_Qeq (hsla_s x) (hsla_s y) /\
  opt_Qeq (hsla_l x) (hsla_l y) /\ opt_Qeq (hsla_a x) (hsla_a y).

(** ** Classes, method resolution and abstract methods *)

Module Abc.

(** A class body lists the methods it defines, each with the flag that
    [@abstractmethod] sets; [Root] is [ABC]. *)
Inductive pyclass : Type :=
| Root
| Derived (name : string) (body : list (string * bool)) (base : pyclass).

(** The class whose body supplies attribute [m], searching the bases. *)
Fixpoint resolve (c : pyclass) (m : string) : option (string * bool) :=
  match c with
  | Root => None
  | Derived name body base =>
      match List.find (fun d => String.eqb (fst d) m) body with
      | Some d => Some (name, snd d)
      | None => resolve base m
      end
  end.

(** The name of the class that defines [m] for instances of [c]. *)
Definition defined_in (c : pyclass) (m : string) : option string :=
  fst <$> resolve c m.

Definition is_abstract (c : pyclass) (m : string) : bool :=
  match resolve c m with
  | Some (_, flag) => flag
  | None => false
  end.

(** [__abstractmethods__]: the abstract names of the body, and the
    abstract names of the base that still resolve to an abstract method. *)
Fixpoint abstractmethods (c : pyclass) : list string :=
  match c with
  | Root => []
  | Derived name body base =>
      List.map fst (List.filter snd body) ++
      List.filter (is_abstract c) (abstractmethods base)
  end.

Definition Colour_class : pyclass :=
  Derived "Colour"
    [("to_hsla", true); ("to_rgba", true); ("to_hex", true)]%string Root.

Definition hsla_class : pyclass :=
  Derived "hsla"
    [("__init__", false); ("__call__", false); ("clone", false);
     ("to_hsla", false); ("to_rgba", false)]%string Colour_class.

Definition rgba_class : pyclass :=
  Derived "rgba"
    [("__init__", false); ("clone", false); ("normalise", false);
     ("to_hsla", false); ("to_rgba", false)]%string Colour_class.

(** Creating an instance: [object.__new__] refuses a class that still
    has abstract methods. *)
Definition instantiate (c : pyclass) : result unit :=
  match abstractmethods c with
  | [] => Ok tt
  | _ :: _ => Raise TypeError
  end.

End Abc.

(** ** Palettes *)

(** What a class namespace binds a name to: a colour instance, or
    anything else ([__module__], [__doc__], ...). *)
Inductive attr : Type :=
| Entry (c : colour)
| Other.

(** A palette class with its namespace in definition order and its
    base; a class whose metaclass is not [MetaPalette] ([object], any
    plain class) cannot be iterated. *)
Inductive palette : Type :=
| PlainClass
| PaletteClass (ns : list (string * attr)) (base : palette).

(** The items of a namespace that are [Colour] instances. *)
Fixpoint colours (ns : list (string * attr)) : list (string * colour) :=
  match ns with
  | [] => []
  | (name, Entry c) :: rest => (name, c) :: colours rest
  | (_, Other) :: rest => colours rest
  end.

(** [MetaPalette.__iter__]: iterating a plain class raises [TypeError],
    which the [except] clause of the derived class turns into its own
    items alone. *)
Fixpoint palette_iter (self : palette) : result (list (string * colour)) :=
  match self with
  | PlainClass => Raise TypeError
  | PaletteClass ns base =>
      let iter_self := colours ns in
      match palette_iter base with
      | Ok items => Ok (iter_self ++ items)
      | Raise TypeError => Ok iter_self
      | Raise e => Raise e
      end
  end.

(** The class body of [Palette], run top to bottom: the namespace it
    leaves, or the exception that stops the class statement. *)
Definition Palette_body : result (list (string * attr)) :=
  BLACK ← rgba_new (Some 0%Z) (Some 0%Z) (Some 0%Z) None;
  WHITE ← rgba_new (Some 255%Z) (Some 255%Z) (Some 255%Z) None;
  SHADOW ← rgba_clone BLACK None None None (Some 50);
  TRANSPARENT ← rgba_clone BLACK None None None (Some 0);
  Ok [("__module__", Other); ("__qualname__", Other); ("__doc__", Other);
      ("BLACK", Entry (RGBA BLACK)); ("WHITE", Entry (RGBA WHITE));
      ("SHADOW", Entry (RGBA SHADOW));
      ("TRANSPARENT", Entry (RGBA TRANSPARENT))]%string.

(** The namespace of [Palette] (see [Palette_body_runs]). *)
Definition Palette_ns : list (string * attr) :=
  let black := mk_rgba (Some 0%Z) (Some 0%Z) (Some 0%Z) in
  [("__module__", Other); ("__qualname__", Other); ("__doc__", Other);
   ("BLACK", Entry (RGBA (black None)));
   ("WHITE", Entry (RGBA (mk_rgba (Some 255%Z) (Some 255%Z) (Some 255%Z) None)));
   ("SHADOW", Entry (RGBA (black (Some (50 # 100)))));
   ("TRANSPARENT", Entry (RGBA (black (Some 0))))]%string.

Definition Palette : palette := PaletteClass Palette_ns PlainClass.

(** The class body of [Mariana], which extends [Palette]. *)
Definition Mariana_body : result (list (string * attr)) :=
  let hsl h s l := hsla_new (Some h) (Some s) (Some l) None in
  MARIANA ← hsl 210%Z 15 22;
  DARK_0 ← hsla_clone MARIANA None None (Some 11) None;
  DARK_1 ← hsla_clone MARIANA None None (Some 13) None;
  DARK_2 ← hsla_clone MARIANA None None (Some 19) None;
  MEDIUM_0 ← hsla_clone MARIANA None None None None;
  MEDIUM_1 ← hsla_clone MARIANA None None (Some 40) (Some 75);
  MEDIUM_2 ← hsla_clone MARIANA None None (Some 45) None;
  LIGHT_0 ← hsl 220%Z 12 69;
  LIGHT_1 ← hsl 220%Z 28 88;
  RED ← hsl 357%Z 79 65;
  CORAL ← hsl 13%Z 93 66;
  ORANGE ← hsl 32%Z 93 66;
  YELLOW ← hsl 40%Z 94 68;
  MINT ← hsl 114%Z 31 68;
  TEAL ← hsl 180%Z 36 54;
  BLUE ← hsl 210%Z 50 60;
  PURPLE ← hsl 300%Z 30 68;
  Ok [("__module__", Other); ("__qualname__", Other); ("__doc__", Other);
      ("MARIANA", Entry (HSLA MARIANA)); ("DARK_0", Entry (HSLA DARK_0));
      ("DARK_1", Entry (HSLA DARK_1)); ("DARK_2", Entry (HSLA DARK_2));
      ("MEDIUM_0", Entry (HSLA MEDIUM_0)); ("MEDIUM_1", Entry (HSLA MEDIUM_1));
      ("MEDIUM_2", Entry (HSLA MEDIUM_2)); ("LIGHT_0", Entry (HSLA LIGHT_0));
      ("LIGHT_1", Entry (HSLA LIGHT_1)); ("RED", Entry (HSLA RED));
      ("CORAL", Entry (HSLA CORAL)); ("ORANGE", Entry (HSLA ORANGE));
      ("YELLOW", Entry (HSLA YELLOW)); ("MINT", Entry (HSLA MINT));
      ("TEAL", Entry (HSLA TEAL)); ("BLUE", Entry (HSLA BLUE));
      ("PURPLE", Entry (HSLA PURPLE))]%string.

(** [to_hex] on a palette entry, dispatched on its class. *)
Definition colour_to_hex (c : colour) : result string :=
  match c with
  | HSLA v => to_hex v
  | RGBA v => to_hex v
  end.

(** The names of an enumeration with their hex renderings. *)
Fixpoint hex_table (items : list (string * colour)) : result (list (string * string)) :=
  match items with
  | [] => Ok []
  | (name, c) :: rest =>
      text ← colour_to_hex c;
      table ← hex_table rest;
      Ok ((name, text) :: table)
  end.

(** A derived palette that binds [BLACK] again, as
    [class Night(Palette): BLACK = hsla(210, 15, 11)] does. *)
Definition Night_ns : list (string * attr) :=
  [("__module__", Other); ("__qualname__", Other);
   ("BLACK", Entry (HSLA (mk_hsla (Some 210%Z) (Some (15 # 100)) (Some (11 # 100)) None)))]%string.

Definition Night : palette := PaletteClass Night_ns Palette.

(** ** Membership in a palette *)

(** [==] on two fields: [None] equals [None] only, numbers compare by
    value. *)
Definition opt_Zeqb (x y : option Z) : bool :=
  match x, y with
  | Some p, Some q => (p =? q)%Z
  | None, None => true
  | _, _ => false
  end.

Definition opt_Qeqb (x y : option Q) : bool :=
  match x, y with
  | Some p, Some q => Qeq_bool p q
  | None, None => true
  | _, _ => false
  end.

(** The [__eq__] that [@dataclass] generates: instances of one class
    compare their field tuples, instances of two classes are unequal. *)
Definition colour_eqb (x y : colour) : bool :=
  match x, y with
  | HSLA u, HSLA v =>
      opt_Zeqb (hsla_h u) (hsla_h v) && opt_Qeqb (hsla_s u) (hsla_s v) &&
      opt_Qeqb (hsla_l u) (hsla_l v) && opt_Qeqb (hsla_a u) (hsla_a v)
  | RGBA u, RGBA v =>
      opt_Zeqb (rgba_r u) (rgba_r v) && opt_Zeqb (rgba_g u) (rgba_g v) &&
      opt_Zeqb (rgba_b u) (rgba_b v) && opt_Qeqb (rgba_a u) (rgba_a v)
  | _, _ => false
  end.

(** [obj in items]: some item equals [obj]. *)
Definition py_in (obj : colour) (items : list colour) : bool :=
  existsb (fun e => colour_eqb e obj) items.

(** [MetaPalette.__contains__]: [in_self or obj in self.__base__], the
    base being asked only when [in_self] is false; a plain base raises
    [TypeError], which leaves [in_self]. *)
Fixpoint palette_contains (self : palette) (obj : colour) : result bool :=
  match self with
  | PlainClass => Raise TypeError
  | PaletteClass ns base =>
      let in_self := py_in obj (List.map snd (colours ns)) in
      if in_self then Ok true
      else
        match palette_contains base obj with
        | Ok in_base => Ok in_base
        | Raise TypeError => Ok in_self
        | Raise e => Raise e
        end
  end.

(** ** The theme exporter of [mariana.py] *)

(** [str.replace(old, new)]: the occurrences of [old] are found from
    the left and do not overlap; [skip] counts the characters of a
    found occurrence that are still to be passed over. *)
Fixpoint replace_from (old new : string) (skip : nat) (s : string) : string :=
  match s with
  | EmptyString => EmptyString
  | String c rest =>
      match skip with
      | S k => replace_from old new k rest
      | O =>
          if String.prefix old s
          then (new ++ replace_from old new (String.length old - 1) rest)%string
          else String c (replace_from old new 0 rest)
      end
  end.

(** An empty [old] matches before every character and at the end. *)
Fixpoint replace_empty (new s : string) : string :=
  match s with
  | EmptyString => new
  | String c rest => (new ++ String c (replace_empty new rest))%string
  end.

Definition str_replace (s old new : string) : string :=
  match old with
  | EmptyString => replace_empty new s
  | String _ _ => replace_from old new 0 s
  end.

Definition tab : string := String (ascii_of_nat 9) EmptyString.
Definition newline : string := String (ascii_of_nat 10) EmptyString.

(** [content.replace(': ', ':').replace('\t', '').replace('\n', '')]. *)
Definition strip_layout (content : string) : string :=
  str_replace (str_replace (str_replace content ": " ":") tab EmptyString)
              newline EmptyString.

(** Files: the text that [read()] returns for each path that exists. *)
Definition files : Type := string -> option string.

Definition write_file (fs : files) (path text : string) : files :=
  fun p => if String.eqb p path then Some text else fs p.

(** What a method of [ThemeReference] can raise: [open] on a missing
    path, or an exception of the colour code. *)
Inductive os_exn : Type :=
| FileNotFoundError
| Python (e : exn).

Inductive outcome (A : Type) : Type :=
| Done (a : A)
| Failed (e : os_exn).
Arguments Done {A} a.
Arguments Failed {A} e.

Definition lift {A : Type} (m : result A) : outcome A :=
  match m with
  | Ok a => Done a
  | Raise e => Failed (Python e)
  end.

(** A [ThemeReference]: [themes] is unset until [use_themes]. *)
Record theme_reference : Type := mk_theme_reference {
  ref_filename : string;
  ref_themes : option (list palette)
}.

(** [ThemeReference.__init__] and [use_themes]. *)
Definition ThemeReference (filename : string) : theme_reference :=
  mk_theme_reference filename None.

Definition use_themes (self : theme_reference) (themes : list palette) : theme_reference :=
  mk_theme_reference (ref_filename self) (Some themes).

(** [colour.name] and [colour.value] in the inner loop: [colour] is an
    item of the enumeration, a tuple, and a tuple has neither. *)
Definition item_name (item : string * colour) : result string := Raise AttributeError.
Definition item_value (item : string * colour) : result colour := Raise AttributeError.

(** The inner [for colour in theme] loop. *)
Fixpoint substitute_items (items : list (string * colour)) (content : string)
    : result string :=
  match items with
  | [] => Ok content
  | item :: rest =>
      name ← item_name item;
      value ← item_value item;
      text ← colour_to_hex value;
      substitute_items rest (str_replace content name text)
  end.

(** The outer [for theme in self.themes] loop. *)
Fixpoint substitute_themes (themes : list palette) (content : string) : result string :=
  match themes with
  | [] => Ok content
  | theme :: rest =>
      items ← palette_iter theme;
      content' ← substitute_items items content;
      substitute_themes rest content'
  end.

(** [ThemeReference.export_color_theme]: the files after the call. *)
Definition export_color_theme (fs : files) (self : theme_reference) (filename : string)
    : outcome files :=
  match fs (ref_filename self) with
  | None => Failed FileNotFoundError
  | Some content =>
      let content := strip_layout content in
      match ref_themes self with
      | None => Failed (Python AttributeError)
      | Some themes =>
          match lift (substitute_themes themes content) with
          | Done content' => Done (write_file fs filename content')
          | Failed e => Failed e
          end
      end
  end.

(** ** Proof tools *)

(** Case analysis on every comparison [Qle_bool] or [Qltb] of the goal,
    each case with its inequality among the hypotheses. *)
Ltac case_qle :=
  repeat match goal with
  | |- context [Qle_bool ?a ?b] =>
      let E := fresh "E" in
      destruct (Qle_bool a b) eqn:E;
      [ apply Qle_bool_iff in E
      | apply not_true_iff_false in E; rewrite Qle_bool_iff in E;
        apply Qnot_le_lt in E ]
  end.

Ltac case_qltb :=
  repeat match goal with
  | |- context [Qltb ?a ?b] =>
      let E := fresh "E" in
      destruct (Qltb a b) eqn:E; unfold Qltb in E;
      [ apply negb_true_iff, not_true_iff_false in E; rewrite Qle_bool_iff in E;
        apply Qnot_le_lt in E
      | apply negb_false_iff, Qle_bool_iff in E ]
  end.

(** The integer bounds [lo <= h <= hi] as rational ones. *)
Ltac hue_bounds h lo hi :=
  let B1 := fresh "B" in
  let B2 := fresh "B" in
  assert (B1 : inject_Z lo <= inject_Z h) by (rewrite <- Zle_Qle; lia);
  assert (B2 : inject_Z h <= inject_Z hi) by (rewrite <- Zle_Qle; lia);
  change (inject_Z lo) with (lo # 1) in B1;
  change (inject_Z hi) with (hi # 1) in B2.

(** Equations between multiples of one factor, by linear arithmetic on
    the other factors. *)
Ltac scaled_eq :=
  first
    [ lra
    | match goal with
      | |- ?C * ?a == ?C * ?b => apply Qmult_comp; [reflexivity | lra]
      | |- ?C == ?C * ?a =>
          transitivity (C * 1); [ring | apply Qmult_comp; [reflexivity | lra]]
      | |- 0 == ?C * ?a =>
          transitivity (C * 0); [ring | apply Qmult_comp; [reflexivity | lra]]
      end ].

(** * Properties *)

(** ** Rounding *)

Lemma Qltb_lt (x y : Q) : Qltb x y = true <-> x < y.
Proof.
  unfold Qltb. rewrite negb_true_iff, <- not_true_iff_false, Qle_bool_iff.
  split; [apply Qnot_le_lt | apply Qlt_not_le].
Qed.

Lemma Qltb_ge (x y : Q) : Qltb x y = false <-> y <= x.
Proof.
  unfold Qltb. rewrite negb_false_iff, Qle_bool_iff. reflexivity.
Qed.

Lemma Qeq_bool_false (x y : Q) : Qeq_bool x y = false <-> ~ x == y.
Proof.
  rewrite <- Qeq_bool_iff. destruct (Qeq_bool x y); split; congruence.
Qed.

#[global] Instance py_round_proper : Proper (Qeq ==> eq) py_round.
Proof.
  intros x y E. unfold py_round.
  rewrite (Qfloor_comp _ _ E).
  assert (E' : x - inject_Z (Qfloor y) == y - inject_Z (Qfloor y)) by (rewrite E; reflexivity).
  rewrite (Qcompare_comp _ _ E' _ _ (Qeq_refl (1 # 2))). reflexivity.
Qed.

(** [round] moves a number by at most one half. *)
Lemma py_round_near (x : Q) :
  inject_Z (py_round x) - (1 # 2) <= x <= inject_Z (py_round x) + (1 # 2).
Proof.
  unfold py_round.
  pose proof (Qfloor_le x) as Hlo. pose proof (Qlt_floor x) as Hhi.
  rewrite inject_Z_plus in Hhi. change (inject_Z 1) with 1 in Hhi.
  destruct (Qcompare_spec (x - inject_Z (Qfloor x)) (1 # 2)) as [E|E|E].
  - destruct (Z.even (Qfloor x)); [|rewrite inject_Z_plus; change (inject_Z 1) with 1]; lra.
  - lra.
  - rewrite inject_Z_plus. change (inject_Z 1) with 1. lra.
Qed.

Lemma py_round_inject (n : Z) : py_round (inject_Z n) = n.
Proof.
  unfold py_round. rewrite Qfloor_Z.
  destruct (Qcompare_spec (inject_Z n - inject_Z n) (1 # 2)) as [E|E|E]; try reflexivity; lra.
Qed.

Lemma inject_Z_lt_inv (a b : Z) : inject_Z a < inject_Z b -> (a < b)%Z.
Proof. rewrite <- Zlt_Qlt. trivial. Qed.

(** [round] is monotone. *)
Lemma py_round_mono (x y : Q) : x <= y -> (py_round x <= py_round y)%Z.
Proof.
  intros Hxy.
  destruct (Qlt_le_dec x y) as [Hlt | Hge].
  2:{ assert (E : x == y) by lra. rewrite E. lia. }
  pose proof (Qfloor_resp_le _ _ Hxy) as Hfl.
  pose proof (Qfloor_le x) as Hxlo. pose proof (Qlt_floor x) as Hxhi.
  pose proof (Qfloor_le y) as Hylo. pose proof (Qlt_floor y) as Hyhi.
  rewrite inject_Z_plus in Hxhi, Hyhi. change (inject_Z 1) with 1 in Hxhi, Hyhi.
  unfold py_round.
  destruct (Z.eq_dec (Qfloor x) (Qfloor y)) as [Efl | Nfl].
  - rewrite Efl in *.
    destruct (Qcompare_spec (x - inject_Z (Qfloor y)) (1 # 2)) as [E|E|E];
    destruct (Qcompare_spec (y - inject_Z (Qfloor y)) (1 # 2)) as [E'|E'|E'];
    try (destruct (Z.even (Qfloor y))); try lia; lra.
  - assert (Qfloor x + 1 <= Qfloor y)%Z by lia.
    destruct (Qcompare (x - inject_Z (Qfloor x)) (1 # 2));
    destruct (Qcompare (y - inject_Z (Qfloor y)) (1 # 2));
    try (destruct (Z.even (Qfloor x))); try (destruct (Z.even (Qfloor y))); lia.
Qed.

(** Rounding a number of [[lo, hi]] stays between the two integers. *)
Lemma py_round_between (lo hi : Z) (x : Q) :
  inject_Z lo <= x <= inject_Z hi -> (lo <= py_round x <= hi)%Z.
Proof.
  intros [H1 H2]. split.
  - rewrite <- (py_round_inject lo). now apply py_round_mono.
  - rewrite <- (py_round_inject hi). now apply py_round_mono.
Qed.

#[global] Instance py_round2_proper : Proper (Qeq ==> Qeq) py_round2.
Proof. intros x y E. unfold py_round2. rewrite E. reflexivity. Qed.

(** [round(x, 2)] moves a number by at most 0.005. *)
Lemma py_round2_near (x : Q) :
  py_round2 x - (1 # 200) <= x <= py_round2 x + (1 # 200).
Proof.
  unfold py_round2. pose proof (py_round_near (x * 100)) as H.
  set (n := inject_Z (py_round (x * 100))) in *.
  unfold Qdiv. change (/ 100) with (1 # 100). lra.
Qed.

(** ** Construction *)

Lemma betweenZ_iff (lo hi v : Z) : betweenZ lo hi v = true <-> (lo <= v <= hi)%Z.
Proof. unfold betweenZ. rewrite andb_true_iff, !Z.leb_le. reflexivity. Qed.

Lemma betweenQ_iff (lo hi v : Q) : betweenQ lo hi v = true <-> lo <= v <= hi.
Proof. unfold betweenQ. rewrite andb_true_iff, !Qle_bool_iff. reflexivity. Qed.

(** The truthiness guard loses nothing: the only falsy number, 0, is
    inside every range the constructors check. *)
Lemma checkZ_spec (field range : string) (lo hi : Z) (o : option Z) :
  (lo <= 0 <= hi)%Z ->
  match checkZ field range lo hi o with
  | Ok _ => in_bound lo hi o
  | Raise e => exists v, o = Some v /\ ~ (lo <= v <= hi)%Z /\
                         e = ValueError field (inject_Z v) range
  end.
Proof.
  intros H0. destruct o as [v|]; cbn; [|exact I].
  destruct (Z.eqb_spec v 0) as [->|Hv]; cbn; [exact H0|].
  destruct (betweenZ lo hi v) eqn:E; cbn.
  - now apply betweenZ_iff.
  - exists v. repeat split. rewrite <- betweenZ_iff. congruence.
Qed.

Lemma checkQ_spec (field range : string) (o : option Q) :
  match checkQ field range 0 100 o with
  | Ok _ => percent_ok o
  | Raise e => exists v, o = Some v /\ ~ (0 <= v <= 100) /\ e = ValueError field v range
  end.
Proof.
  destruct o as [v|]; cbn; [|exact I].
  destruct (Qeq_bool v 0) eqn:E0; cbn.
  - apply Qeq_bool_iff in E0. lra.
  - destruct (betweenQ 0 100 v) eqn:E; cbn.
    + now apply betweenQ_iff.
    + exists v. repeat split. rewrite <- betweenQ_iff. congruence.
Qed.

Lemma unit_scale_small (v : Q) : v <= 1 -> unit_scale v = v.
Proof. intros H. unfold unit_scale. now rewrite (proj2 (Qltb_ge 1 v) H). Qed.

Lemma unit_scale_large (v : Q) : 1 < v -> unit_scale v = v / 100.
Proof. intros H. unfold unit_scale. now rewrite (proj2 (Qltb_lt 1 v) H). Qed.

Lemma unit_scale_range (v : Q) : 0 <= v <= 100 -> 0 <= unit_scale v <= 1.
Proof.
  intros H. destruct (Qlt_le_dec 1 v) as [Hv | Hv].
  - rewrite unit_scale_large by exact Hv.
    unfold Qdiv. change (/ 100) with (1 # 100). lra.
  - rewrite unit_scale_small by exact Hv. lra.
Qed.

Lemma unit_scale_fraction (o : option Q) :
  percent_ok o -> unit_fraction (unit_scale <$> o).
Proof. destruct o as [v|]; cbn; [apply unit_scale_range | trivial]. Qed.

Lemma unit_scale_idem (o : option Q) :
  unit_fraction o -> unit_scale <$> o = o.
Proof.
  destruct o as [v|]; cbn; [|reflexivity].
  intros [_ H]. now rewrite unit_scale_small.
Qed.

Lemma unit_fraction_percent (o : option Q) : unit_fraction o -> percent_ok o.
Proof. destruct o as [v|]; cbn; [lra | trivial]. Qed.

Lemma assign_default {A : Type} (f : A -> A) (arg : option A) :
  assign f arg None = f <$> arg.
Proof. now destruct arg. Qed.

Lemma assign_id_default {A : Type} (arg : option A) :
  assign (fun v => v) arg None = arg.
Proof. now destruct arg. Qed.

(** What a constructor call does, case by case. *)
Lemma hsla_new_spec (h : option Z) (s l a : option Q) :
  match hsla_new h s l a with
  | Ok v => hsla_args_ok h s l a /\
            v = mk_hsla h (unit_scale <$> s) (unit_scale <$> l) (unit_scale <$> a)
  | Raise e => exists field value range,
      e = ValueError field value range /\ hsla_offence h s l a field value range
  end.
Proof.
  unfold hsla_new, hsla_init, hsla_args_ok, hsla_offence.
  pose proof (checkZ_spec "hue" hue_range 0 359 h ltac:(lia)) as Hh.
  destruct (checkZ "hue" hue_range 0 359 h) as [[]|e]; cbn.
  2:{ destruct Hh as (v & -> & Hv & ->). do 3 eexists. split; [reflexivity|].
      left. eauto 6. }
  pose proof (checkQ_spec "saturation" percent_range s) as Hs.
  destruct (checkQ "saturation" percent_range 0 100 s) as [[]|e]; cbn.
  2:{ destruct Hs as (v & -> & Hv & ->). do 3 eexists. split; [reflexivity|].
      right; left. eauto 6. }
  pose proof (checkQ_spec "lightness" percent_range l) as Hl.
  destruct (checkQ "lightness" percent_range 0 100 l) as [[]|e]; cbn.
  2:{ destruct Hl as (v & -> & Hv & ->). do 3 eexists. split; [reflexivity|].
      right; right; left. eauto 6. }
  pose proof (checkQ_spec "alpha" percent_range a) as Ha.
  destruct (checkQ "alpha" percent_range 0 100 a) as [[]|e]; cbn.
  2:{ destruct Ha as (v & -> & Hv & ->). do 3 eexists. split; [reflexivity|].
      right; right; right. eauto 6. }
  rewrite assign_id_default, !assign_default. auto.
Qed.

Lemma rgba_new_spec (r g b : option Z) (a : option Q) :
  match rgba_new r g b a with
  | Ok v => rgba_args_ok r g b a /\ v = mk_rgba r g b (unit_scale <$> a)
  | Raise e => exists field value range,
      e = ValueError field value range /\ rgba_offence r g b a field value range
  end.
Proof.
  unfold rgba_new, rgba_init, rgba_args_ok, rgba_offence.
  pose proof (checkZ_spec "red" byte_range 0 255 r ltac:(lia)) as Hr.
  destruct (checkZ "red" byte_range 0 255 r) as [[]|e]; cbn.
  2:{ destruct Hr as (v & -> & Hv & ->). do 3 eexists. split; [reflexivity|].
      left. eauto 6. }
  pose proof (checkZ_spec "green" byte_range 0 255 g ltac:(lia)) as Hg.
  destruct (checkZ "green" byte_range 0 255 g) as [[]|e]; cbn.
  2:{ destruct Hg as (v & -> & Hv & ->). do 3 eexists. split; [reflexivity|].
      right; left. eauto 6. }
  pose proof (checkZ_spec "blue" byte_range 0 255 b ltac:(lia)) as Hb.
  destruct (checkZ "blue" byte_range 0 255 b) as [[]|e]; cbn.
  2:{ destruct Hb as (v & -> & Hv & ->). do 3 eexists. split; [reflexivity|].
      right; right; left. eauto 6. }
  pose proof (checkQ_spec "alpha" percent_range a) as Ha.
  destruct (checkQ "alpha" percent_range 0 100 a) as [[]|e]; cbn.
  2:{ destruct Ha as (v & -> & Hv & ->). do 3 eexists. split; [reflexivity|].
      right; right; right. eauto 6. }
  rewrite !assign_id_default, assign_default. auto.
Qed.

Lemma hsla_offence_not_ok h s l a field value range :
  hsla_offence h s l a field value range -> ~ hsla_args_ok h s l a.
Proof.
  unfold hsla_offence, hsla_args_ok.
  intros [(_ & _ & v & -> & _ & Hv) | [(_ & _ & -> & Hv) | [(_ & _ & -> & Hv) | (_ & _ & -> & Hv)]]];
    cbn; tauto.
Qed.

Lemma rgba_offence_not_ok r g b a field value range :
  rgba_offence r g b a field value range -> ~ rgba_args_ok r g b a.
Proof.
  unfold rgba_offence, rgba_args_ok.
  intros [(_ & _ & v & -> & _ & Hv) | [(_ & _ & v & -> & _ & Hv) | [(_ & _ & v & -> & _ & Hv) | (_ & _ & -> & Hv)]]];
    cbn; tauto.
Qed.

Lemma hsla_new_ok (h : option Z) (s l a : option Q) :
  hsla_args_ok h s l a ->
  hsla_new h s l a = Ok (mk_hsla h (unit_scale <$> s) (unit_scale <$> l) (unit_scale <$> a)).
Proof.
  intros Hok. pose proof (hsla_new_spec h s l a) as H.
  destruct (hsla_new h s l a) as [v|e].
  - now destruct H as [_ ->].
  - destruct H as (f & x & r & _ & Hoff). now apply hsla_offence_not_ok in Hoff.
Qed.

Lemma rgba_new_ok (r g b : option Z) (a : option Q) :
  rgba_args_ok r g b a ->
  rgba_new r g b a = Ok (mk_rgba r g b (unit_scale <$> a)).
Proof.
  intros Hok. pose proof (rgba_new_spec r g b a) as H.
  destruct (rgba_new r g b a) as [v|e].
  - now destruct H as [_ ->].
  - destruct H as (f & x & rg & _ & Hoff). now apply rgba_offence_not_ok in Hoff.
Qed.

(** A constructed value satisfies the stored-field bounds. *)
Lemma hsla_new_valid h s l a v : hsla_new h s l a = Ok v -> hsla_valid v.
Proof.
  intros E. pose proof (hsla_new_spec h s l a) as H. rewrite E in H.
  destruct H as [(Hh & Hs & Hl & Ha) ->].
  repeat split; cbn; auto using unit_scale_fraction; apply unit_scale_fraction; auto.
Qed.

Lemma rgba_new_valid r g b a v : rgba_new r g b a = Ok v -> rgba_valid v.
Proof.
  intros E. pose proof (rgba_new_spec r g b a) as H. rewrite E in H.
  destruct H as [(Hr & Hg & Hb & Ha) ->].
  repeat split; cbn; auto; apply unit_scale_fraction; auto.
Qed.



(** ** Conversions on missing or degenerate channels *)

(** An unset channel stops a conversion at its first use. *)
Lemma hsla_to_rgba_unset (v : hsla) :
  hsla_h v = None \/ hsla_s v = None \/ hsla_l v = None ->
  hsla_to_rgba v = Raise TypeError.
Proof.
  destruct v as [h s l a]. intros H. cbn in H.
  destruct l; [|reflexivity]. destruct s; [|reflexivity].
  destruct h; [|reflexivity]. destruct H as [H | [H | H]]; discriminate.
Qed.

Lemma rgba_to_hsla_unset (v : rgba) :
  rgba_r v = None \/ rgba_g v = None \/ rgba_b v = None ->
  normalise v = Raise TypeError /\ rgba_to_hsla v = Raise TypeError.
Proof.
  destruct v as [r g b a]. intros H. cbn in H.
  destruct r; [|split; reflexivity]. destruct g; [|split; reflexivity].
  destruct b; [|split; reflexivity]. destruct H as [H | [H | H]]; discriminate.
Qed.


(** C1.  On black and on white, both built by the constructor with
    every channel in range, [to_hsla] divides by [1 - |2L - 1| = 0] and
    raises [ZeroDivisionError]; on [rgba(255, 0, 1)] it computes the
    hue 360 and the constructor of the result raises [ValueError]. *)
Theorem to_hsla_raises_on_valid_input :
  let black := mk_rgba (Some 0%Z) (Some 0%Z) (Some 0%Z) None in
  let white := mk_rgba (Some 255%Z) (Some 255%Z) (Some 255%Z) None in
  let rose := mk_rgba (Some 255%Z) (Some 0%Z) (Some 1%Z) None in
  rgba_new (Some 0%Z) (Some 0%Z) (Some 0%Z) None = Ok black /\
  rgba_new (Some 255%Z) (Some 255%Z) (Some 255%Z) None = Ok white /\
  rgba_new (Some 255%Z) (Some 0%Z) (Some 1%Z) None = Ok rose /\
  to_hsla black = Raise ZeroDivisionError /\
  to_hsla white = Raise ZeroDivisionError /\
  to_hsla rose = Raise (ValueError "hue" 360 "[0, 359]").
Proof. cbv zeta. repeat split; reflexivity. Qed.

(** ** Hex rendering *)

Lemma below_256 (P : Z -> bool) :
  forallb P (List.map Z.of_nat (seq 0 256)) = true ->
  forall n, (0 <= n <= 255)%Z -> P n = true.
Proof.
  intros H n Hn. rewrite forallb_forall in H. apply H.
  apply in_map_iff. exists (Z.to_nat n). split; [lia|].
  apply in_seq. lia.
Qed.

(** [f'{n:02x}'] of a byte is two lowercase hex digits that read back
    as the byte. *)
Lemma format_02x_byte (n : Z) :
  (0 <= n <= 255)%Z -> byte_of_hex (format_02x n) = Some n.
Proof.
  intros Hn.
  pose (P := fun n => match byte_of_hex (format_02x n) with
                      | Some m => (m =? n)%Z
                      | None => false
                      end).
  assert (HP : P n = true) by (apply below_256; [vm_compute; reflexivity | exact Hn]).
  unfold P in HP. destruct (byte_of_hex (format_02x n)) as [m|]; [|discriminate].
  apply Z.eqb_eq in HP. now subst.
Qed.

(** The alpha byte: [round(a * 255)] of a unit fraction. *)
Lemma alpha_byte (a : Q) : 0 <= a <= 1 -> (0 <= py_round (a * 255) <= 255)%Z.
Proof.
  intros H. apply py_round_between. change (inject_Z 0) with 0.
  change (inject_Z 255) with 255. lra.
Qed.

Lemma to_hex_unfold {A : Type} `{Colour A} (self : A) (c : rgba) (r g b : Z) :
  to_rgba self = Ok (Some c) ->
  rgba_r c = Some r -> rgba_g c = Some g -> rgba_b c = Some b ->
  to_hex self =
    Ok (String "#" (format_02x r ++ format_02x g ++ format_02x b ++
        match rgba_a c with
        | Some a => if Qeq_bool a 1 then EmptyString else format_02x (py_round (a * 255))
        | None => EmptyString
        end))%string.
Proof.
  intros E Er Eg Eb. unfold to_hex. rewrite E. cbn. rewrite Er, Eg, Eb.
  destruct (rgba_a c) as [a|]; cbn; [|reflexivity].
  destruct (Qeq_bool a 1); reflexivity.
Qed.


(** ** Palettes *)

Lemma Palette_body_runs : Palette_body = Ok Palette_ns.
Proof. reflexivity. Qed.

Lemma colours_In (ns : list (string * attr)) (name : string) (c : colour) :
  In (name, c) (colours ns) <-> In (name, Entry c) ns.
Proof.
  induction ns as [|[n [c'|]] ns IH]; cbn.
  - reflexivity.
  - rewrite IH. split; (intros [E|E]; [left; congruence | right; exact E]).
  - rewrite IH. split; [auto | intros [E|E]; [discriminate | exact E]].
Qed.

(** Iterating a plain class raises [TypeError]; iterating a palette
    class returns its own colours followed by what its base yields. *)
Lemma palette_iter_cases (p : palette) :
  p = PlainClass /\ palette_iter p = Raise TypeError \/
  exists ns base, p = PaletteClass ns base /\
    exists inherited,
      palette_iter p = Ok (colours ns ++ inherited) /\
      (palette_iter base = Ok inherited \/
       palette_iter base = Raise TypeError /\ inherited = []).
Proof.
  induction p as [|ns base IH]; [now left|]. right.
  exists ns, base. split; [reflexivity|]. cbn.
  destruct IH as [[-> E] | (ns' & base' & -> & inh & E & _)].
  - exists []. cbn. rewrite app_nil_r. auto.
  - rewrite E. eauto.
Qed.

(** C9, the counterexample.  [Night] extends [Palette] and binds
    [BLACK] again: its enumeration lists [BLACK] twice, the entry of
    [Palette] included. *)
Lemma derived_palette_repeats_name :
  List.NoDup (List.map fst (colours Night_ns)) /\
  List.NoDup (List.map fst (colours Palette_ns)) /\
  exists items,
    palette_iter Night = Ok items /\
    List.map fst items = ["BLACK"; "BLACK"; "WHITE"; "SHADOW"; "TRANSPARENT"]%string /\
    ~ List.NoDup (List.map fst items).
Proof.
  split; [|split].
  - cbn. repeat (constructor; [cbn; intuition discriminate|]). constructor.
  - cbn. repeat (constructor; [cbn; intuition discriminate|]). constructor.
  - eexists. split; [reflexivity|]. split; [reflexivity|].
    cbn. intros H. inversion H as [|? ? Hin _]. apply Hin. now left.
Qed.

(** C9, amended.  The enumeration of a palette class is the colour
    entries of its own namespace, in definition order, followed by the
    whole enumeration of its base; nothing is removed, so a name bound
    by both is listed twice, the derived entry first. *)
Theorem palette_enumeration :
  (forall ns, palette_iter (PaletteClass ns PlainClass) = Ok (colours ns)) /\
  (forall ns ns' base',
     exists inherited,
       palette_iter (PaletteClass ns' base') = Ok inherited /\
       palette_iter (PaletteClass ns (PaletteClass ns' base'))
         = Ok (colours ns ++ inherited)) /\
  (forall ns name c, In (name, c) (colours ns) <-> In (name, Entry c) ns) /\
  (forall ns ns' base' name c c',
     In (name, Entry c) ns -> In (name, Entry c') ns' ->
     exists items before between after,
       palette_iter (PaletteClass ns (PaletteClass ns' base')) = Ok items /\
       items = before ++ (name, c) :: between ++ (name, c') :: after).
Proof.
  assert (Hderived : forall ns ns' base',
     exists inherited,
       palette_iter (PaletteClass ns' base') = Ok inherited /\
       palette_iter (PaletteClass ns (PaletteClass ns' base'))
         = Ok (colours ns ++ inherited)).
  { intros ns ns' base'.
    destruct (palette_iter_cases (PaletteClass ns' base'))
      as [[E _] | (n2 & b2 & _ & inh & E & _)]; [discriminate|].
    exists (colours n2 ++ inh). split; [exact E|].
    change (palette_iter (PaletteClass ns (PaletteClass ns' base')))
      with (match palette_iter (PaletteClass ns' base') with
            | Ok items => Ok (colours ns ++ items)
            | Raise TypeError => Ok (colours ns)
            | Raise e => Raise e
            end).
    now rewrite E. }
  split; [reflexivity|]. split; [exact Hderived|]. split; [apply colours_In|].
  intros ns ns' base' name c c' Hin Hin'.
  destruct (Hderived ns ns' base') as (inh & E' & E).
  apply colours_In in Hin. apply in_split in Hin as (l1 & l2 & Hs).
  assert (Hinh : In (name, c') inh).
  { destruct (palette_iter_cases (PaletteClass ns' base'))
      as [[Ep _] | (n2 & b2 & Ep & inh2 & E2 & _)]; [discriminate|].
    injection Ep as <- <-. rewrite E2 in E'. injection E' as <-.
    apply in_or_app. left. now apply colours_In. }
  apply in_split in Hinh as (l3 & l4 & Hs').
  exists (colours ns ++ inh), l1, (l2 ++ l3), l4. split; [exact E|].
  rewrite Hs, Hs'. now rewrite <- !app_assoc.
Qed.

(** ** clone *)

Lemma checkZ_or_field (field range : string) (lo hi : Z) (arg old : option Z) :
  (lo <= 0 <= hi)%Z -> in_bound lo hi old ->
  checkZ field range lo hi (or_field arg old) = checkZ field range lo hi arg.
Proof.
  intros H0 Hold. destruct arg as [v|]; [reflexivity|]. cbn.
  pose proof (checkZ_spec field range lo hi old H0) as H.
  destruct (checkZ field range lo hi old) as [[]|e]; [reflexivity|].
  destruct H as (v & -> & Hv & _). now cbn in Hold.
Qed.

Lemma checkQ_or_field (field range : string) (arg old : option Q) :
  unit_fraction old ->
  checkQ field range 0 100 (or_field arg old) = checkQ field range 0 100 arg.
Proof.
  intros Hold. destruct arg as [v|]; [reflexivity|]. cbn.
  pose proof (checkQ_spec field range old) as H.
  destruct (checkQ field range 0 100 old) as [[]|e]; [reflexivity|].
  destruct H as (v & -> & Hv & _). cbn in Hold.
  exfalso. apply Hv. lra.
Qed.

Lemma assign_or_field (arg old : option Q) :
  unit_fraction old ->
  assign unit_scale (or_field arg old) None = assign unit_scale arg old.
Proof.
  intros H. destruct arg; cbn; [reflexivity|].
  rewrite assign_default. now apply unit_scale_idem.
Qed.

Lemma assign_id_or_field {A : Type} (arg old : option A) :
  assign (fun v => v) (or_field arg old) None = assign (fun v => v) arg old.
Proof. destruct arg; cbn; [reflexivity | apply assign_id_default]. Qed.

(** On a validated receiver, [clone] is [__init__] run on a copy of the
    receiver: the arguments given are checked and stored as the
    constructor does, the other fields stay. *)
Lemma hsla_clone_init (self : hsla) (h : option Z) (s l a : option Q) :
  hsla_valid self -> hsla_clone self h s l a = hsla_init self h s l a.
Proof.
  intros (Hh & Hs & Hl & Ha). unfold hsla_clone, hsla_new, hsla_init.
  rewrite (checkZ_or_field "hue" hue_range 0 359 h _ ltac:(lia) Hh), !checkQ_or_field by assumption.
  unfold hsla_default. cbn [hsla_h hsla_s hsla_l hsla_a].
  rewrite assign_id_or_field, !assign_or_field by assumption. reflexivity.
Qed.

Lemma rgba_clone_init (self : rgba) (r g b : option Z) (a : option Q) :
  rgba_valid self -> rgba_clone self r g b a = rgba_init self r g b a.
Proof.
  intros (Hr & Hg & Hb & Ha). unfold rgba_clone, rgba_new, rgba_init.
  rewrite (checkZ_or_field "red" byte_range 0 255 r _ ltac:(lia) Hr),
    (checkZ_or_field "green" byte_range 0 255 g _ ltac:(lia) Hg),
    (checkZ_or_field "blue" byte_range 0 255 b _ ltac:(lia) Hb), checkQ_or_field by assumption.
  unfold rgba_default. cbn [rgba_r rgba_g rgba_b rgba_a].
  rewrite !assign_id_or_field, assign_or_field by assumption. reflexivity.
Qed.

(** The checks of [__init__] do not look at the instance. *)
Lemma hsla_init_checks (self : hsla) (h : option Z) (s l a : option Q) :
  match hsla_init self h s l a with
  | Ok v => hsla_args_ok h s l a /\
            v = mk_hsla (assign (fun x => x) h (hsla_h self))
                        (assign unit_scale s (hsla_s self))
                        (assign unit_scale l (hsla_l self))
                        (assign unit_scale a (hsla_a self))
  | Raise e => hsla_new h s l a = Raise e
  end.
Proof.
  pose proof (hsla_new_spec h s l a) as H. revert H. unfold hsla_new, hsla_init.
  destruct (checkZ "hue" hue_range 0 359 h) as [[]|e]; cbn; [|reflexivity].
  destruct (checkQ "saturation" percent_range 0 100 s) as [[]|e]; cbn; [|reflexivity].
  destruct (checkQ "lightness" percent_range 0 100 l) as [[]|e]; cbn; [|reflexivity].
  destruct (checkQ "alpha" percent_range 0 100 a) as [[]|e]; cbn; [|reflexivity].
  intros [H _]. auto.
Qed.

Lemma rgba_init_checks (self : rgba) (r g b : option Z) (a : option Q) :
  match rgba_init self r g b a with
  | Ok v => rgba_args_ok r g b a /\
            v = mk_rgba (assign (fun x => x) r (rgba_r self))
                        (assign (fun x => x) g (rgba_g self))
                        (assign (fun x => x) b (rgba_b self))
                        (assign unit_scale a (rgba_a self))
  | Raise e => rgba_new r g b a = Raise e
  end.
Proof.
  pose proof (rgba_new_spec r g b a) as H. revert H. unfold rgba_new, rgba_init.
  destruct (checkZ "red" byte_range 0 255 r) as [[]|e]; cbn; [|reflexivity].
  destruct (checkZ "green" byte_range 0 255 g) as [[]|e]; cbn; [|reflexivity].
  destruct (checkZ "blue" byte_range 0 255 b) as [[]|e]; cbn; [|reflexivity].
  destruct (checkQ "alpha" percent_range 0 100 a) as [[]|e]; cbn; [|reflexivity].
  intros [H _]. auto.
Qed.

(** What [clone] returns satisfies the stored-field bounds again. *)
Lemma hsla_clone_valid (self : hsla) h s l a (v : hsla) :
  hsla_clone self h s l a = Ok v -> hsla_valid v.
Proof. apply hsla_new_valid. Qed.

Lemma rgba_clone_valid (self : rgba) r g b a (v : rgba) :
  rgba_clone self r g b a = Ok v -> rgba_valid v.
Proof. apply rgba_new_valid. Qed.



(** ** [hsla.to_rgba] on validated values *)

Lemma Qabs_cases (x : Q) : 0 <= x /\ Qabs x == x \/ x < 0 /\ Qabs x == - x.
Proof.
  destruct (Qlt_le_dec x 0) as [H | H].
  - right. split; [exact H|]. apply Qabs_neg. lra.
  - left. split; [exact H|]. now apply Qabs_pos.
Qed.

(** [x % 2] lies in [[0, 2)] and differs from [x] by an even integer. *)
Lemma py_mod_2 (x : Q) :
  0 <= py_mod x 2 < 2 /\ py_mod x 2 == x - 2 * inject_Z (Qfloor (x / 2)).
Proof.
  unfold py_mod. split; [|reflexivity].
  pose proof (Qfloor_le (x / 2)) as Hlo. pose proof (Qlt_floor (x / 2)) as Hhi.
  rewrite inject_Z_plus in Hhi. change (inject_Z 1) with 1 in Hhi.
  unfold Qdiv in *. change (/ 2) with (1 # 2) in *. lra.
Qed.

Lemma chroma_bounds (s l : Q) :
  0 <= s <= 1 -> 0 <= l <= 1 ->
  0 <= chroma s l /\ chroma s l <= 2 * l /\ chroma s l <= 2 * (1 - l).
Proof.
  intros Hs Hl. unfold chroma.
  destruct (Qabs_cases (2 * l - 1)) as [[H E] | [H E]]; rewrite E; nra.
Qed.

Lemma second_component_bounds (C : Q) (h : Z) :
  0 <= C -> 0 <= second_component C h <= C.
Proof.
  intros HC. unfold second_component.
  destruct (py_mod_2 (inject_Z h / 60)) as [Hm _].
  destruct (Qabs_cases (py_mod (inject_Z h / 60) 2 - 1)) as [[H E] | [H E]];
    rewrite E; nra.
Qed.

Lemma sextant_loop_row (C X m : Q) (a : option Q) (h : Z) :
  (0 <= h < 360)%Z ->
  sextant_loop h m a (sextant_table C X) =
    let '(r_, g_, b_) := sextant_row C X h in
    c ← rgba_new (Some (py_round ((r_ + m) * 255)))
                 (Some (py_round ((g_ + m) * 255)))
                 (Some (py_round ((b_ + m) * 255))) a;
    Ok (Some c).
Proof.
  intros Hh. unfold sextant_row, sextant_table, sextant_loop.
  repeat match goal with
  | |- context [(?x <=? h)%Z] => destruct (Z.leb_spec x h); try lia
  | |- context [(h <? ?x)%Z] => destruct (Z.ltb_spec h x); try lia
  end; reflexivity.
Qed.

(** A hue outside [[0, 360)] reaches no row: the function returns [None]. *)
Lemma sextant_loop_none (C X m : Q) (a : option Q) (h : Z) :
  (h < 0 \/ 360 <= h)%Z -> sextant_loop h m a (sextant_table C X) = Ok None.
Proof.
  intros Hh. unfold sextant_table, sextant_loop.
  repeat match goal with
  | |- context [(?x <=? h)%Z] => destruct (Z.leb_spec x h); try lia
  | |- context [(h <? ?x)%Z] => destruct (Z.ltb_spec h x); try lia
  end; reflexivity.
Qed.

(** The three components of a row lie in [[0, C]]. *)
Lemma sextant_row_bounds (C X : Q) (h : Z) :
  0 <= X <= C ->
  let '(r_, g_, b_) := sextant_row C X h in
  0 <= r_ <= C /\ 0 <= g_ <= C /\ 0 <= b_ <= C.
Proof.
  intros H. unfold sextant_row.
  repeat match goal with
  | |- context [(h <? ?x)%Z] => destruct (h <? x)%Z
  end; lra.
Qed.

Lemma channel_byte (s l x : Q) :
  0 <= s <= 1 -> 0 <= l <= 1 -> 0 <= x <= chroma s l ->
  (0 <= py_round ((x + (l - chroma s l / 2)) * 255) <= 255)%Z.
Proof.
  intros Hs Hl Hx. destruct (chroma_bounds s l Hs Hl) as (H0 & H1 & H2).
  apply py_round_between. change (inject_Z 0) with 0. change (inject_Z 255) with 255.
  unfold Qdiv. change (/ 2) with (1 # 2). lra.
Qed.

(** On a validated value with the three channels set, [to_rgba]
    returns an [rgba] with three bytes and the same alpha. *)
Lemma hsla_to_rgba_total (h : Z) (s l : Q) (a : option Q) :
  hsla_valid (mk_hsla (Some h) (Some s) (Some l) a) ->
  exists r g b : Z,
    hsla_to_rgba (mk_hsla (Some h) (Some s) (Some l) a)
      = Ok (Some (mk_rgba (Some r) (Some g) (Some b) a)) /\
    (0 <= r <= 255)%Z /\ (0 <= g <= 255)%Z /\ (0 <= b <= 255)%Z /\
    let C := chroma s l in
    let '(r_, g_, b_) := sextant_row C (second_component C h) h in
    r = py_round ((r_ + (l - C / 2)) * 255) /\
    g = py_round ((g_ + (l - C / 2)) * 255) /\
    b = py_round ((b_ + (l - C / 2)) * 255).
Proof.
  intros (Hh & Hs & Hl & Ha). cbn in Hh, Hs, Hl.
  unfold hsla_to_rgba. cbn [hsla_h hsla_s hsla_l hsla_a operand mbind result_bind].
  rewrite sextant_loop_row by lia.
  destruct (chroma_bounds s l Hs Hl) as (H0 & _).
  pose proof (second_component_bounds (chroma s l) h H0) as HX.
  pose proof (sextant_row_bounds (chroma s l) (second_component (chroma s l) h) h HX) as Hrow.
  cbv zeta.
  destruct (sextant_row (chroma s l) (second_component (chroma s l) h) h) as [[r_ g_] b_].
  destruct Hrow as (Hr & Hg & Hb).
  pose proof (channel_byte s l r_ Hs Hl Hr) as Br.
  pose proof (channel_byte s l g_ Hs Hl Hg) as Bg.
  pose proof (channel_byte s l b_ Hs Hl Hb) as Bb.
  do 3 eexists. split; [|repeat split; try reflexivity; lia].
  rewrite rgba_new_ok.
  - cbn [mbind result_bind]. now rewrite (unit_scale_idem a Ha).
  - repeat split; cbn; try lia. now apply unit_fraction_percent.
Qed.

(** ** Known conversions *)


(** The Mariana palette, enumerated and rendered: its own entries,
    then those of [Palette]. *)
Lemma Mariana_hex_table :
  (ns ← Mariana_body;
   items ← palette_iter (PaletteClass ns Palette);
   hex_table items)
  = Ok [("MARIANA", "#303841"); ("DARK_0", "#181c20"); ("DARK_1", "#1c2126");
        ("DARK_2", "#293038"); ("MEDIUM_0", "#303841"); ("MEDIUM_1", "#576675bf");
        ("MEDIUM_2", "#627384"); ("LIGHT_0", "#a6adb9"); ("LIGHT_1", "#d8dee9");
        ("RED", "#ec5f66"); ("CORAL", "#f97b58"); ("ORANGE", "#f9ae58");
        ("YELLOW", "#fac761"); ("MINT", "#99c794"); ("TEAL", "#5fb4b4");
        ("BLUE", "#6699cc"); ("PURPLE", "#c695c6"); ("BLACK", "#000000");
        ("WHITE", "#ffffff"); ("SHADOW", "#00000080");
        ("TRANSPARENT", "#00000000")]%string.
Proof. vm_compute. reflexivity. Qed.

(** ** The shared [to_hex] *)

(** [to_hex] looks at its receiver through [to_rgba] only: two values,
    of any variants, with the same [to_rgba] print the same. *)
Lemma to_hex_through_to_rgba {A B : Type} `{Colour A} `{Colour B} (x : A) (y : B) :
  to_rgba x = to_rgba y -> to_hex x = to_hex y.
Proof. intros E. unfold to_hex. now rewrite E. Qed.

(** In the source [to_hex] carries [@abstractmethod] like the two
    conversions, and neither dataclass overrides it: both keep
    [to_hex] in [__abstractmethods__], which [object.__new__] refuses. *)
Lemma variants_keep_to_hex_abstract :
  Abc.abstractmethods Abc.hsla_class = ["to_hex"%string] /\
  Abc.abstractmethods Abc.rgba_class = ["to_hex"%string] /\
  Abc.instantiate Abc.hsla_class = Raise TypeError /\
  Abc.instantiate Abc.rgba_class = Raise TypeError.
Proof. repeat split; reflexivity. Qed.



(** ** The round trip [rgba.to_hsla().to_rgba()] *)

Lemma py_max3_spec (a b c : Q) :
  a <= py_max3 a b c /\ b <= py_max3 a b c /\ c <= py_max3 a b c /\
  (py_max3 a b c = a \/ py_max3 a b c = b \/ py_max3 a b c = c).
Proof.
  unfold py_max3. destruct (Qltb a b) eqn:E1; [apply Qltb_lt in E1 | apply Qltb_ge in E1];
    case_qltb; repeat split; auto; lra.
Qed.

Lemma py_min3_spec (a b c : Q) :
  py_min3 a b c <= a /\ py_min3 a b c <= b /\ py_min3 a b c <= c /\
  (py_min3 a b c = a \/ py_min3 a b c = b \/ py_min3 a b c = c).
Proof.
  unfold py_min3. destruct (Qltb b a) eqn:E1; [apply Qltb_lt in E1 | apply Qltb_ge in E1];
    case_qltb; repeat split; auto; lra.
Qed.

Lemma Qfloor_unique (n : Z) (x : Q) :
  inject_Z n <= x < inject_Z n + 1 -> Qfloor x = n.
Proof.
  intros [Hlo Hhi].
  pose proof (Qfloor_le x) as H1. pose proof (Qlt_floor x) as H2.
  rewrite inject_Z_plus in H2. change (inject_Z 1) with 1 in H2.
  assert (A : inject_Z n < inject_Z (Qfloor x + 1)).
  { rewrite inject_Z_plus. change (inject_Z 1) with 1. lra. }
  assert (B : inject_Z (Qfloor x) < inject_Z (n + 1)).
  { rewrite inject_Z_plus. change (inject_Z 1) with 1. lra. }
  apply inject_Z_lt_inv in A, B. lia.
Qed.

(** The weights stay in [[0, 1]] and change no faster than the hue. *)
Lemma weight_range (t : Q) :
  0 <= t <= 6 ->
  0 <= weight_r t <= 1 /\ 0 <= weight_g t <= 1 /\ 0 <= weight_b t <= 1.
Proof.
  intros Ht. unfold weight_r, weight_g, weight_b. case_qle; lra.
Qed.

Lemma weight_r_lipschitz (t t' e : Q) :
  - e <= t' - t <= e -> - e <= weight_r t' - weight_r t <= e.
Proof. intros H. unfold weight_r. case_qle; lra. Qed.

Lemma weight_g_lipschitz (t t' e : Q) :
  - e <= t' - t <= e -> - e <= weight_g t' - weight_g t <= e.
Proof. intros H. unfold weight_g. case_qle; lra. Qed.

Lemma weight_b_lipschitz (t t' e : Q) :
  - e <= t' - t <= e -> - e <= weight_b t' - weight_b t <= e.
Proof. intros H. unfold weight_b. case_qle; lra. Qed.

Lemma inject_Z_le (a b : Z) : (a <= b)%Z -> inject_Z a <= inject_Z b.
Proof. now rewrite <- Zle_Qle. Qed.

(** [X] on the rising and on the falling half of a 120 degree period. *)
Lemma second_component_rising (C : Q) (h k : Z) :
  (120 * k <= h < 120 * k + 60)%Z ->
  second_component C h == C * (inject_Z h / 60 - 2 * inject_Z k).
Proof.
  intros [H1 H2]. unfold second_component, py_mod.
  apply inject_Z_le in H1. assert (H3 : (h <= 120 * k + 59)%Z) by lia.
  apply inject_Z_le in H3. rewrite inject_Z_plus, inject_Z_mult in H3.
  rewrite inject_Z_mult in H1.
  change (inject_Z 120) with 120 in *. change (inject_Z 59) with 59 in *.
  rewrite (Qfloor_unique k).
  2:{ unfold Qdiv. change (/ 60) with (1 # 60). change (/ 2) with (1 # 2). lra. }
  set (t := inject_Z h / 60).
  assert (Ht : t == inject_Z h * (1 # 60)) by reflexivity.
  rewrite Qabs_neg by lra. lra.
Qed.

Lemma second_component_falling (C : Q) (h k : Z) :
  (120 * k + 60 <= h < 120 * k + 120)%Z ->
  second_component C h == C * (2 * inject_Z k + 2 - inject_Z h / 60).
Proof.
  intros [H1 H2]. unfold second_component, py_mod.
  apply inject_Z_le in H1. assert (H3 : (h <= 120 * k + 119)%Z) by lia.
  apply inject_Z_le in H3. rewrite inject_Z_plus, inject_Z_mult in H3, H1.
  change (inject_Z 120) with 120 in *. change (inject_Z 119) with 119 in *.
  change (inject_Z 60) with 60 in *.
  rewrite (Qfloor_unique k).
  2:{ unfold Qdiv. change (/ 60) with (1 # 60). change (/ 2) with (1 # 2). lra. }
  set (t := inject_Z h / 60).
  assert (Ht : t == inject_Z h * (1 # 60)) by reflexivity.
  rewrite Qabs_pos by lra. lra.
Qed.

(** The row that the table returns for the hue [h] holds the chroma
    in the proportions of the weights at [h / 60]. *)
Lemma sextant_row_weights (C : Q) (h : Z) :
  (0 <= h < 360)%Z ->
  let '(r_, g_, b_) := sextant_row C (second_component C h) h in
  r_ == C * weight_r (inject_Z h / 60) /\
  g_ == C * weight_g (inject_Z h / 60) /\
  b_ == C * weight_b (inject_Z h / 60).
Proof.
  intros Hh. unfold sextant_row.
  assert (Ht : inject_Z h / 60 == inject_Z h * (1 # 60)) by reflexivity.
  repeat match goal with
  | |- context [(h <? ?x)%Z] => destruct (Z.ltb_spec h x)
  end.
  - rewrite (second_component_rising C h 0) by lia. hue_bounds h 0%Z 59%Z.
    change (inject_Z 0) with 0.
    unfold weight_r, weight_g, weight_b; case_qle; repeat split; scaled_eq.
  - rewrite (second_component_falling C h 0) by lia. hue_bounds h 60%Z 119%Z.
    change (inject_Z 0) with 0.
    unfold weight_r, weight_g, weight_b; case_qle; repeat split; scaled_eq.
  - rewrite (second_component_rising C h 1) by lia. hue_bounds h 120%Z 179%Z.
    change (inject_Z 1) with 1.
    unfold weight_r, weight_g, weight_b; case_qle; repeat split; scaled_eq.
  - rewrite (second_component_falling C h 1) by lia. hue_bounds h 180%Z 239%Z.
    change (inject_Z 1) with 1.
    unfold weight_r, weight_g, weight_b; case_qle; repeat split; scaled_eq.
  - rewrite (second_component_rising C h 2) by lia. hue_bounds h 240%Z 299%Z.
    change (inject_Z 2) with 2.
    unfold weight_r, weight_g, weight_b; case_qle; repeat split; scaled_eq.
  - rewrite (second_component_falling C h 2) by lia. hue_bounds h 300%Z 359%Z.
    change (inject_Z 2) with 2.
    unfold weight_r, weight_g, weight_b; case_qle; repeat split; scaled_eq.
Qed.

Lemma py_div_ok (x y q : Q) :
  py_div x y = Ok q -> ~ y == 0 /\ q = x / y /\ q * y == x.
Proof.
  unfold py_div. destruct (Qeq_bool y 0) eqn:E; [discriminate|].
  apply Qeq_bool_false in E. intros [= <-]. repeat split; trivial.
  unfold Qdiv. rewrite <- Qmult_assoc, (Qmult_comm (/ y)), Qmult_inv_r by exact E. ring.
Qed.

Lemma ratio_bounds (q d x : Q) :
  0 < d -> q * d == x -> - d <= x <= d -> -1 <= q <= 1.
Proof.
  intros Hd E Hx. split.
  - destruct (Qlt_le_dec q (-1)) as [H|H]; [|exact H]. nra.
  - destruct (Qlt_le_dec 1 q) as [H|H]; [|exact H]. nra.
Qed.

Lemma ratio_sign (q d x : Q) :
  0 < d -> q * d == x -> (0 <= q <-> 0 <= x).
Proof.
  intros Hd E. split; intros H; [nra|].
  destruct (Qlt_le_dec q 0) as [H'|H']; [nra | exact H'].
Qed.

(** The hue that [to_hsla] rounds lies in [[0, 360)], and the three
    normalised channels are the minimum plus the weights' shares of
    the difference between maximum and minimum. *)
Lemma hue_expr_weights (R G B x : Q) :
  let C_max := py_max3 R G B in
  let C_min := py_min3 R G B in
  hue_expr R G B C_max (C_max - C_min) = Ok x ->
  0 <= x < 360 /\
  R == C_min + (C_max - C_min) * weight_r (x / 60) /\
  G == C_min + (C_max - C_min) * weight_g (x / 60) /\
  B == C_min + (C_max - C_min) * weight_b (x / 60).
Proof.
  intros C_max C_min.
  destruct (py_max3_spec R G B) as (M1 & M2 & M3 & _).
  destruct (py_min3_spec R G B) as (N1 & N2 & N3 & Nc).
  fold C_max in M1, M2, M3. fold C_min in N1, N2, N3, Nc.
  clearbody C_max C_min. unfold hue_expr.
  destruct (Qeq_bool (C_max - C_min) 0) eqn:Ed.
  { apply Qeq_bool_iff in Ed. intros [= <-]. unfold Qdiv; change (/ 60) with (1 # 60).
    split; [lra|]. unfold weight_r, weight_g, weight_b. case_qle; repeat split; nra. }
  apply Qeq_bool_false in Ed.
  assert (Hd : 0 < C_max - C_min).
  { destruct (Qlt_le_dec 0 (C_max - C_min)) as [H|H]; [exact H|]. exfalso. apply Ed. lra. }
  destruct (Qeq_bool C_max R) eqn:Er.
  { apply Qeq_bool_iff in Er.
    destruct (py_div (G - B) (C_max - C_min)) as [q|] eqn:Eq; [|discriminate].
    apply py_div_ok in Eq as (_ & _ & Eq). cbn. intros [= <-].
    pose proof (ratio_bounds q _ _ Hd Eq ltac:(lra)) as Hq.
    pose proof (ratio_sign q _ _ Hd Eq) as Hs.
    unfold py_mod.
    destruct (Qlt_le_dec q 0) as [Hneg | Hpos].
    - rewrite (Qfloor_unique (-1)).
      2:{ unfold Qdiv. change (/ 6) with (1 # 6).
          change (inject_Z (-1)) with (-1). lra. }
      change (inject_Z (-1)) with (-1). unfold Qdiv; change (/ 60) with (1 # 60).
      assert (G < B) by (destruct (Qlt_le_dec G B); [assumption|]; lra).
      split; [lra|].
      unfold weight_r, weight_g, weight_b.
      destruct Nc as [-> | [-> | ->]]; case_qle; repeat split; try lra; nra.
    - rewrite (Qfloor_unique 0).
      2:{ unfold Qdiv. change (/ 6) with (1 # 6). change (inject_Z 0) with 0. lra. }
      change (inject_Z 0) with 0. unfold Qdiv; change (/ 60) with (1 # 60).
      assert (B <= G) by lra.
      split; [lra|].
      unfold weight_r, weight_g, weight_b.
      destruct Nc as [-> | [-> | ->]]; case_qle; repeat split; try lra; nra. }
  apply Qeq_bool_false in Er.
  destruct (Qeq_bool C_max G) eqn:Eg.
  { apply Qeq_bool_iff in Eg.
    destruct (py_div (B - R) (C_max - C_min)) as [q|] eqn:Eq; [|discriminate].
    apply py_div_ok in Eq as (_ & _ & Eq). cbn. intros [= <-].
    pose proof (ratio_bounds q _ _ Hd Eq ltac:(lra)) as Hq.
    pose proof (ratio_sign q _ _ Hd Eq) as Hs.
    unfold Qdiv; change (/ 60) with (1 # 60). split; [lra|].
    unfold weight_r, weight_g, weight_b.
      destruct Nc as [-> | [-> | ->]]; case_qle; repeat split; try lra; nra. }
  apply Qeq_bool_false in Eg.
  destruct (Qeq_bool C_max B) eqn:Eb; [|discriminate].
  apply Qeq_bool_iff in Eb.
  destruct (py_div (R - G) (C_max - C_min)) as [q|] eqn:Eq; [|discriminate].
  apply py_div_ok in Eq as (_ & _ & Eq). cbn. intros [= <-].
  pose proof (ratio_bounds q _ _ Hd Eq ltac:(lra)) as Hq.
  pose proof (ratio_sign q _ _ Hd Eq) as Hs.
  unfold Qdiv; change (/ 60) with (1 # 60). split; [lra|].
  unfold weight_r, weight_g, weight_b.
      destruct Nc as [-> | [-> | ->]]; case_qle; repeat split; try lra; nra.
Qed.

Lemma product_bound (a b A B : Q) :
  - A <= a <= A -> - B <= b <= B -> - (A * B) <= a * b <= A * B.
Proof. intros Ha Hb. split; nra. Qed.

(** One channel through the round trip.  The channel [v] is the
    minimum plus the share [w] of the difference [delta]; it comes back
    from the lightness [L], the chroma [C'] and the share [w'], each
    off by its rounding: the result is within 4 of [v]. *)
Lemma channel_round_trip (v : Z) (C_min delta w w' L C' : Q) :
  inject_Z v / 255 == C_min + delta * w ->
  0 <= delta <= 1 -> 0 <= w' <= 1 ->
  - (1 # 120) <= w' - w <= 1 # 120 ->
  - (1 # 200) <= L - (C_min + delta / 2) <= 1 # 200 ->
  - (1 # 200) <= C' - delta <= 1 # 200 ->
  (v - 4 <= py_round ((C' * w' + (L - C' / 2)) * 255) <= v + 4)%Z.
Proof.
  intros Ev Hd Hw' Hw HL HC.
  set (y := (C' * w' + (L - C' / 2)) * 255).
  pose proof (py_round_near y) as Hy. set (out := py_round y) in *.
  unfold Qdiv in Ev, HL. change (/ 255) with (1 # 255) in Ev.
  change (/ 2) with (1 # 2) in HL.
  assert (Ey : y == (C' * w' + (L - C' * (1 # 2))) * 255) by reflexivity.
  pose proof (product_bound (C' - delta) (w' - (1 # 2)) (1 # 200) (1 # 2)
                ltac:(lra) ltac:(lra)) as P1.
  pose proof (product_bound delta (w' - w) 1 (1 # 120) ltac:(lra) ltac:(lra)) as P2.
  assert (Hclose : - (4 + (3 # 80)) <= y - inject_Z v <= 4 + (3 # 80)).
  { assert (E1 : (C' - delta) * (w' - (1 # 2)) ==
                 C' * w' - C' * (1 # 2) - delta * w' + delta * (1 # 2)) by ring.
    assert (E2 : delta * (w' - w) == delta * w' - delta * w) by ring.
    rewrite E1 in P1. rewrite E2 in P2.
    change (1 * (1 # 120)) with (1 # 120) in P2.
    change ((1 # 200) * (1 # 2)) with (1 # 400) in P1.
    lra. }
  assert (A : inject_Z (v - 5) < inject_Z out).
  { unfold Z.sub. rewrite inject_Z_plus. change (inject_Z (- (5))) with (-5). lra. }
  assert (B : inject_Z out < inject_Z (v + 5)).
  { rewrite inject_Z_plus. change (inject_Z 5) with 5. lra. }
  apply inject_Z_lt_inv in A, B. lia.
Qed.

(** The values that [to_hsla] computes on three set channels. *)
Lemma hsl_of_inv (r g b : Z) (a : option Q) (H : Z) (S' L : Q) :
  hsl_of (mk_rgba (Some r) (Some g) (Some b) a) = Ok (H, S', L) ->
  exists x q,
    hue_expr (inject_Z r / 255) (inject_Z g / 255) (inject_Z b / 255)
      (py_max3 (inject_Z r / 255) (inject_Z g / 255) (inject_Z b / 255))
      (py_max3 (inject_Z r / 255) (inject_Z g / 255) (inject_Z b / 255) -
       py_min3 (inject_Z r / 255) (inject_Z g / 255) (inject_Z b / 255)) = Ok x /\
    H = py_round x /\
    L = py_round2
          ((py_max3 (inject_Z r / 255) (inject_Z g / 255) (inject_Z b / 255) +
            py_min3 (inject_Z r / 255) (inject_Z g / 255) (inject_Z b / 255)) / 2) /\
    py_div (py_max3 (inject_Z r / 255) (inject_Z g / 255) (inject_Z b / 255) -
            py_min3 (inject_Z r / 255) (inject_Z g / 255) (inject_Z b / 255))
           (1 - Qabs (2 * L - 1)) = Ok q /\
    S' = py_round2 q.
Proof.
  unfold hsl_of, normalise. cbn [rgba_r rgba_g rgba_b operand mbind result_bind].
  generalize (inject_Z r / 255), (inject_Z g / 255), (inject_Z b / 255).
  intros R G B.
  generalize (py_max3 R G B), (py_min3 R G B). intros C_max C_min.
  destruct (hue_expr R G B C_max (C_max - C_min)) as [x|]; [|discriminate].
  cbn [mbind result_bind].
  generalize (py_round2 ((C_max + C_min) / 2)). intros L0.
  destruct (py_div (C_max - C_min) (1 - Qabs (2 * L0 - 1))) as [q|] eqn:Eq; [|discriminate].
  cbn [mbind result_bind]. intros [= <- <- <-].
  exists x, q. split; [reflexivity|]. split; [reflexivity|].
  split; [reflexivity|]. split; [exact Eq | reflexivity].
Qed.

Lemma py_round2_unit (x : Q) : 0 <= x <= 1 -> 0 <= py_round2 x <= 1.
Proof.
  intros Hx. unfold py_round2.
  assert (H : (0 <= py_round (x * 100) <= 100)%Z).
  { apply py_round_between. change (inject_Z 0) with 0. change (inject_Z 100) with 100. lra. }
  destruct H as [H1 H2]. apply inject_Z_le in H1, H2.
  change (inject_Z 0) with 0 in H1. change (inject_Z 100) with 100 in H2.
  unfold Qdiv. change (/ 100) with (1 # 100). lra.
Qed.

Lemma py_round2_nonneg (x : Q) : 0 <= x -> 0 <= py_round2 x.
Proof.
  intros Hx. unfold py_round2.
  assert (H : (0 <= py_round (x * 100))%Z).
  { rewrite <- (py_round_inject 0). apply py_round_mono. change (inject_Z 0) with 0. lra. }
  apply inject_Z_le in H. change (inject_Z 0) with 0 in H.
  unfold Qdiv. change (/ 100) with (1 # 100). lra.
Qed.

Lemma byte_unit (v : Z) : (0 <= v <= 255)%Z -> 0 <= inject_Z v / 255 <= 1.
Proof.
  intros [H1 H2]. apply inject_Z_le in H1, H2.
  change (inject_Z 0) with 0 in H1. change (inject_Z 255) with 255 in H2.
  unfold Qdiv. change (/ 255) with (1 # 255). lra.
Qed.

(** From [rgba] to [hsla] and back.  When [to_hsla] computes a
    saturation of at most 1 and a hue below 360, it returns, [to_rgba]
    of the result returns, the alpha is the same and every channel is
    within 4 of the original. *)
Lemma rgb_round_trip (r g b : Z) (a : option Q) (H : Z) (S' L : Q) :
  rgba_valid (mk_rgba (Some r) (Some g) (Some b) a) ->
  hsl_of (mk_rgba (Some r) (Some g) (Some b) a) = Ok (H, S', L) ->
  S' <= 1 -> (H <= 359)%Z ->
  exists r' g' b' : Z,
    rgba_to_hsla (mk_rgba (Some r) (Some g) (Some b) a)
      = Ok (mk_hsla (Some H) (Some S') (Some L) a) /\
    hsla_to_rgba (mk_hsla (Some H) (Some S') (Some L) a)
      = Ok (Some (mk_rgba (Some r') (Some g') (Some b') a)) /\
    (r - 4 <= r' <= r + 4)%Z /\ (g - 4 <= g' <= g + 4)%Z /\ (b - 4 <= b' <= b + 4)%Z.
Proof.
  intros (Hr & Hg & Hb & Ha) E HS HH. cbn in Hr, Hg, Hb, Ha.
  destruct (hsl_of_inv r g b a H S' L E) as (x & q & Ex & EH & EL & Eq & ES).
  pose proof (byte_unit r Hr) as UR. pose proof (byte_unit g Hg) as UG.
  pose proof (byte_unit b Hb) as UB.
  remember (inject_Z r / 255) as R eqn:ER.
  remember (inject_Z g / 255) as G eqn:EG.
  remember (inject_Z b / 255) as B eqn:EB.
  destruct (py_max3_spec R G B) as (M1 & M2 & M3 & Mc).
  destruct (py_min3_spec R G B) as (N1 & N2 & N3 & Nc).
  destruct (hue_expr_weights R G B x Ex) as (Hx & WR & WG & WB).
  remember (py_max3 R G B) as C_max eqn:EM.
  remember (py_min3 R G B) as C_min eqn:EN.
  clear EM EN.
  assert (Hmax : 0 <= C_max <= 1) by (destruct Mc as [-> | [-> | ->]]; assumption).
  assert (Hmin : 0 <= C_min <= 1) by (destruct Nc as [-> | [-> | ->]]; assumption).
  assert (Hmid : (C_max + C_min) / 2 == C_min + (C_max - C_min) / 2).
  { unfold Qdiv. change (/ 2) with (1 # 2). ring. }
  assert (HL : 0 <= L <= 1).
  { rewrite EL. apply py_round2_unit. unfold Qdiv. change (/ 2) with (1 # 2). lra. }
  assert (NL : - (1 # 200) <= L - (C_min + (C_max - C_min) / 2) <= 1 # 200).
  { rewrite <- Hmid. pose proof (py_round2_near ((C_max + C_min) / 2)) as P.
    rewrite <- EL in P. lra. }
  clear EL.
  apply py_div_ok in Eq as (HD & _ & Eq).
  assert (HD' : 0 < 1 - Qabs (2 * L - 1) <= 1).
  { destruct (Qabs_cases (2 * L - 1)) as [[P1 P2] | [P1 P2]]; rewrite P2 in *; split;
      try lra; (destruct (Qlt_le_dec 0 (1 - (2 * L - 1))) as [K|K] ||
                destruct (Qlt_le_dec 0 (1 - - (2 * L - 1))) as [K|K]);
      try exact K; exfalso; apply HD; lra. }
  clear HD. remember (1 - Qabs (2 * L - 1)) as D eqn:ED.
  assert (Hdel : 0 <= C_max - C_min <= 1) by lra.
  assert (Hq : 0 <= q).
  { apply (ratio_sign q D (C_max - C_min)); [lra | exact Eq | lra]. }
  assert (HS0 : 0 <= S') by (rewrite ES; now apply py_round2_nonneg).
  pose proof (py_round2_near q) as NS. rewrite <- ES in NS.
  assert (NC : - (1 # 200) <= D * S' - (C_max - C_min) <= 1 # 200) by nra.
  assert (HH0 : (0 <= H <= 360)%Z).
  { rewrite EH. apply py_round_between.
    change (inject_Z 0) with 0. change (inject_Z 360) with 360. lra. }
  pose proof (py_round_near x) as NH. rewrite <- EH in NH.
  assert (HtH : 0 <= inject_Z H / 60 <= 6).
  { destruct HH0 as [K1 K2]. apply inject_Z_le in K1, K2.
    change (inject_Z 0) with 0 in K1. change (inject_Z 360) with 360 in K2.
    unfold Qdiv. change (/ 60) with (1 # 60). lra. }
  assert (Hnear : - (1 # 120) <= inject_Z H / 60 - x / 60 <= 1 # 120).
  { unfold Qdiv. change (/ 60) with (1 # 60). lra. }
  assert (Hv : hsla_valid (mk_hsla (Some H) (Some S') (Some L) a)).
  { repeat split; cbn; try lia; try lra; assumption. }
  destruct (hsla_to_rgba_total H S' L a Hv) as (r' & g' & b' & Eback & _ & _ & _ & Hrow).
  exists r', g', b'. split.
  { unfold rgba_to_hsla. rewrite E. cbn [mbind result_bind]. rewrite hsla_new_ok.
    - cbn. rewrite !unit_scale_small by lra. now rewrite unit_scale_idem.
    - repeat split; cbn; try lia; try lra. now apply unit_fraction_percent. }
  split; [exact Eback|].
  cbv zeta in Hrow.
  pose proof (sextant_row_weights (chroma S' L) H ltac:(lia)) as Wrow.
  destruct (sextant_row (chroma S' L) (second_component (chroma S' L) H) H)
    as [[r_ g_] b_].
  destruct Wrow as (Wr & Wg & Wb). destruct Hrow as (-> & -> & ->).
  rewrite Wr, Wg, Wb.
  assert (NC' : - (1 # 200) <= chroma S' L - (C_max - C_min) <= 1 # 200).
  { unfold chroma. rewrite <- ED. exact NC. }
  destruct (weight_range (inject_Z H / 60) HtH) as (R1 & R2 & R3).
  repeat split.
  - apply (channel_round_trip r C_min (C_max - C_min) (weight_r (x / 60))); auto.
    + now rewrite <- ER.
    + now apply weight_r_lipschitz.
  - apply (channel_round_trip r C_min (C_max - C_min) (weight_r (x / 60))); auto.
    + now rewrite <- ER.
    + now apply weight_r_lipschitz.
  - apply (channel_round_trip g C_min (C_max - C_min) (weight_g (x / 60))); auto.
    + now rewrite <- EG.
    + now apply weight_g_lipschitz.
  - apply (channel_round_trip g C_min (C_max - C_min) (weight_g (x / 60))); auto.
    + now rewrite <- EG.
    + now apply weight_g_lipschitz.
  - apply (channel_round_trip b C_min (C_max - C_min) (weight_b (x / 60))); auto.
    + now rewrite <- EB.
    + now apply weight_b_lipschitz.
  - apply (channel_round_trip b C_min (C_max - C_min) (weight_b (x / 60))); auto.
    + now rewrite <- EB.
    + now apply weight_b_lipschitz.
Qed.

(** ** The round trip [hsla.to_rgba().to_hsla()] *)

(** Every row of the table holds the chroma itself and a zero. *)
Lemma sextant_row_extremes (C X : Q) (h : Z) :
  let '(r_, g_, b_) := sextant_row C X h in
  (r_ = C \/ g_ = C \/ b_ = C) /\ (r_ = 0 \/ g_ = 0 \/ b_ = 0).
Proof.
  unfold sextant_row.
  repeat match goal with
  | |- context [(h <? ?x)%Z] => destruct (h <? x)%Z
  end; auto.
Qed.

(** From [hsla] to [rgba] and back: when both conversions return, the
    lightness is within 0.01 of the original and the alpha is the same. *)
Lemma hsl_round_trip_lightness (h : Z) (s l : Q) (a : option Q) (c : rgba) (back : hsla) :
  hsla_valid (mk_hsla (Some h) (Some s) (Some l) a) ->
  hsla_to_rgba (mk_hsla (Some h) (Some s) (Some l) a) = Ok (Some c) ->
  rgba_to_hsla c = Ok back ->
  exists l' : Q,
    hsla_l back = Some l' /\ - (1 # 100) <= l' - l <= 1 # 100 /\ hsla_a back = a.
Proof.
  intros Hv Ec Eb.
  destruct (hsla_to_rgba_total h s l a Hv) as (r & g & b & E & Hr & Hg & Hb & Hrow).
  rewrite E in Ec. injection Ec as <-.
  destruct Hv as (Hh & Hs & Hl & Ha). cbn in Hh, Hs, Hl, Ha.
  destruct (chroma_bounds s l Hs Hl) as (HC0 & HC1 & HC2).
  pose proof (second_component_bounds (chroma s l) h HC0) as HX.
  pose proof (sextant_row_bounds (chroma s l) (second_component (chroma s l) h) h HX) as Hbd.
  pose proof (sextant_row_extremes (chroma s l) (second_component (chroma s l) h) h) as Hex.
  cbv zeta in Hrow.
  destruct (sextant_row (chroma s l) (second_component (chroma s l) h) h) as [[r_ g_] b_].
  remember (chroma s l) as C eqn:EC. clear EC HX.
  remember (l - C / 2) as m eqn:Em.
  assert (Em' : m == l - C * (1 # 2)) by (rewrite Em; reflexivity). clear Em.
  set (hi := py_round ((C + m) * 255)).
  set (lo := py_round ((0 + m) * 255)).
  assert (Hchan : forall x, 0 <= x <= C ->
            (lo <= py_round ((x + m) * 255) <= hi)%Z).
  { intros x Hx. split; apply py_round_mono; lra. }
  destruct Hbd as (Br & Bg & Bb). destruct Hrow as (Er & Eg & Eb').
  pose proof (Hchan r_ Br) as Cr. pose proof (Hchan g_ Bg) as Cg.
  pose proof (Hchan b_ Bb) as Cb. rewrite <- Er in Cr. rewrite <- Eg in Cg.
  rewrite <- Eb' in Cb.
  assert (Hhi : hi = r \/ hi = g \/ hi = b).
  { destruct Hex as [[-> | [-> | ->]] _]; subst r g b; auto. }
  assert (Hlo : lo = r \/ lo = g \/ lo = b).
  { destruct Hex as [_ [-> | [-> | ->]]]; subst r g b; auto. }
  pose proof (py_round_near ((C + m) * 255)) as Nhi. fold hi in Nhi.
  pose proof (py_round_near ((0 + m) * 255)) as Nlo. fold lo in Nlo.
  clearbody hi lo. clear Hchan Er Eg Eb' Hex Br Bg Bb r_ g_ b_.
  (* the way back *)
  unfold rgba_to_hsla in Eb.
  destruct (hsl_of (mk_rgba (Some r) (Some g) (Some b) a)) as [[[H S'] L]|] eqn:Ehsl;
    [|discriminate].
  cbn [mbind result_bind rgba_a] in Eb.
  destruct (hsl_of_inv r g b a H S' L Ehsl) as (x & q & _ & _ & EL & _ & _).
  pose proof (hsla_new_spec (Some H) (Some S') (Some L) a) as Hnew.
  rewrite Eb in Hnew. destruct Hnew as [_ ->]. cbn [hsla_l hsla_a].
  assert (Q1 : forall v, (lo <= v <= hi)%Z ->
            inject_Z lo / 255 <= inject_Z v / 255 <= inject_Z hi / 255).
  { intros v [K1 K2]. apply inject_Z_le in K1, K2.
    unfold Qdiv. change (/ 255) with (1 # 255). lra. }
  pose proof (Q1 r Cr) as QR. pose proof (Q1 g Cg) as QG. pose proof (Q1 b Cb) as QB.
  destruct (py_max3_spec (inject_Z r / 255) (inject_Z g / 255) (inject_Z b / 255))
    as (M1 & M2 & M3 & Mc).
  destruct (py_min3_spec (inject_Z r / 255) (inject_Z g / 255) (inject_Z b / 255))
    as (N1 & N2 & N3 & Nc).
  remember (py_max3 (inject_Z r / 255) (inject_Z g / 255) (inject_Z b / 255)) as C_max.
  remember (py_min3 (inject_Z r / 255) (inject_Z g / 255) (inject_Z b / 255)) as C_min.
  assert (Emax : C_max == inject_Z hi / 255).
  { apply Qle_antisym.
    - destruct Mc as [-> | [-> | ->]]; lra.
    - destruct Hhi as [-> | [-> | ->]]; lra. }
  assert (Emin : C_min == inject_Z lo / 255).
  { apply Qle_antisym.
    - destruct Hlo as [-> | [-> | ->]]; lra.
    - destruct Nc as [-> | [-> | ->]]; lra. }
  pose proof (py_round2_near ((C_max + C_min) / 2)) as NL. rewrite <- EL in NL.
  assert (Hmid : - (1 # 510) <= (C_max + C_min) / 2 - l <= 1 # 510).
  { rewrite Emax, Emin. unfold Qdiv. change (/ 255) with (1 # 255).
    change (/ 2) with (1 # 2). lra. }
  assert (HL1 : L <= 1).
  { assert (K : 0 <= L <= 1); [|lra]. rewrite EL. apply py_round2_unit.
    assert (0 <= C_min) by (rewrite Emin; unfold Qdiv; change (/ 255) with (1 # 255);
      destruct Hlo as [-> | [-> | ->]]; destruct Hr as [K1 _], Hg as [K2 _], Hb as [K3 _];
      apply inject_Z_le in K1, K2, K3; change (inject_Z 0) with 0 in *; lra).
    assert (C_max <= 1) by (rewrite Emax; unfold Qdiv; change (/ 255) with (1 # 255);
      destruct Hhi as [-> | [-> | ->]]; destruct Hr as [_ K1], Hg as [_ K2], Hb as [_ K3];
      apply inject_Z_le in K1, K2, K3; change (inject_Z 255) with 255 in *; lra).
    assert (C_min <= C_max) by lra.
    unfold Qdiv. change (/ 2) with (1 # 2). lra. }
  exists L. split; [cbn; now rewrite unit_scale_small|].
  split; [lra|]. now apply unit_scale_idem.
Qed.




(** * Further properties *)

(** ** Construction and clone *)



Lemma opt_Qeq_refl (o : option Q) : opt_Qeq o o.
Proof. destruct o; cbn; [reflexivity | exact I]. Qed.



Lemma checkQ_or_percent (field range : string) (arg old : option Q) :
  percent_ok old ->
  checkQ field range 0 100 (or_field arg old) = checkQ field range 0 100 arg.
Proof.
  intros Hold. destruct arg as [v|]; [reflexivity|]. cbn.
  pose proof (checkQ_spec field range old) as H.
  destruct (checkQ field range 0 100 old) as [[]|e]; [reflexivity|].
  destruct H as (v & -> & Hv & _). now cbn in Hold.
Qed.

Lemma assign_twice {A : Type} (f : A -> A) (arg' arg old : option A) :
  assign f arg' (assign f arg old) = assign f (or_field arg' arg) old.
Proof. destruct arg'; reflexivity. Qed.



(** ** [hsla.to_rgba] *)





Lemma chroma_zero_channels (h : Z) (s l : Q) (a : option Q) :
  hsla_valid (mk_hsla (Some h) (Some s) (Some l) a) ->
  chroma s l == 0 ->
  to_rgba (mk_hsla (Some h) (Some s) (Some l) a)
    = Ok (Some (mk_rgba (Some (py_round (l * 255))) (Some (py_round (l * 255)))
                        (Some (py_round (l * 255))) a)).
Proof.
  intros Hv HC.
  destruct (hsla_to_rgba_total h s l a Hv) as (r & g & b & E & _ & _ & _ & Hrow).
  cbv zeta in Hrow.
  destruct Hv as (_ & Hs & Hl & _). cbn in Hs, Hl.
  destruct (chroma_bounds s l Hs Hl) as (H0 & _).
  pose proof (second_component_bounds (chroma s l) h H0) as HX.
  pose proof (sextant_row_bounds (chroma s l) (second_component (chroma s l) h) h HX) as Hbd.
  destruct (sextant_row (chroma s l) (second_component (chroma s l) h) h) as [[r_ g_] b_].
  destruct Hbd as (Br & Bg & Bb). destruct Hrow as (Er & Eg & Eb).
  assert (K : forall x, 0 <= x <= chroma s l ->
            py_round ((x + (l - chroma s l / 2)) * 255) = py_round (l * 255)).
  { intros x Hx. apply py_round_proper.
    unfold Qdiv. change (/ 2) with (1 # 2). lra. }
  rewrite (K r_ Br) in Er. rewrite (K g_ Bg) in Eg. rewrite (K b_ Bb) in Eb.
  cbn [to_rgba hsla_Colour]. now rewrite E, Er, Eg, Eb.
Qed.



(** ** Abstract methods *)

(** X7.  [Colour.to_hex] carries [@abstractmethod]: a subclass of
    [Colour] whose body does not define [to_hex] keeps it in
    [__abstractmethods__] and cannot be instantiated, and that is the
    case of [hsla] and of [rgba]; a subclass that defines the three
    methods without the decorator can. *)
Theorem subclass_without_to_hex_is_abstract :
  (forall name body,
     List.find (fun d => String.eqb (fst d) "to_hex") body = None ->
     In "to_hex"%string (Abc.abstractmethods (Abc.Derived name body Abc.Colour_class)) /\
     Abc.instantiate (Abc.Derived name body Abc.Colour_class) = Raise TypeError) /\
  Abc.instantiate Abc.hsla_class = Raise TypeError /\
  Abc.instantiate Abc.rgba_class = Raise TypeError /\
  (forall name extra,
     Forall (fun d => snd d = false) extra ->
     Abc.instantiate
       (Abc.Derived name
          (("to_hsla", false) :: ("to_rgba", false) :: ("to_hex", false) :: extra)%string
          Abc.Colour_class) = Ok tt).
Proof.
  split; [|split; [reflexivity|split; [reflexivity|]]].
  - intros name body Hfind.
    assert (Hin : In "to_hex"%string
              (Abc.abstractmethods (Abc.Derived name body Abc.Colour_class))).
    { cbn [Abc.abstractmethods]. apply in_or_app. right.
      apply filter_In. split; [cbn; auto|].
      unfold Abc.is_abstract. cbn [Abc.resolve]. rewrite Hfind. reflexivity. }
    split; [exact Hin|]. unfold Abc.instantiate.
    destruct (Abc.abstractmethods (Abc.Derived name body Abc.Colour_class));
      [destruct Hin | reflexivity].
  - intros name extra Hall. unfold Abc.instantiate.
    assert (E : List.filter snd extra = []).
    { induction Hall as [|[m flag] rest Hd _ IH]; [reflexivity|].
      cbn in Hd. subst flag. cbn. exact IH. }
    cbn. rewrite E. reflexivity.
Qed.

(** ** Membership and enumeration *)

Lemma colour_eqb_refl (c : colour) : colour_eqb c c = true.
Proof.
  assert (HZ : forall o : option Z, opt_Zeqb o o = true).
  { intros [z|]; cbn; [apply Z.eqb_refl | reflexivity]. }
  assert (HQ : forall o : option Q, opt_Qeqb o o = true).
  { intros [q|]; cbn; [apply Qeq_bool_iff; reflexivity | reflexivity]. }
  destruct c as [v|v]; cbn; now rewrite !HZ, !HQ.
Qed.

Lemma py_in_app (obj : colour) (l1 l2 : list colour) :
  py_in obj (l1 ++ l2) = py_in obj l1 || py_in obj l2.
Proof. apply existsb_app. Qed.

(** Membership is membership in the enumeration. *)
Lemma palette_contains_iter (p : palette) :
  p = PlainClass \/
  exists items,
    palette_iter p = Ok items /\
    forall obj, palette_contains p obj = Ok (py_in obj (List.map snd items)).
Proof.
  induction p as [|ns base IH]; [now left|]. right.
  destruct IH as [-> | (inh & Ei & Ec)].
  - exists (colours ns). split; [reflexivity|]. intros obj. cbn.
    destruct (py_in obj (List.map snd (colours ns))); reflexivity.
  - exists (colours ns ++ inh). split; [cbn; now rewrite Ei|].
    intros obj. cbn [palette_contains]. rewrite Ec, List.map_app, py_in_app.
    destruct (py_in obj (List.map snd (colours ns))); reflexivity.
Qed.


(** ** The theme exporter *)

(** Replacing a character by nothing deletes it and adds nothing. *)
Lemma replace_char_deletes (c : ascii) (s : string) :
  ~ In c (list_ascii_of_string (str_replace s (String c EmptyString) EmptyString)) /\
  forall d, In d (list_ascii_of_string (str_replace s (String c EmptyString) EmptyString)) ->
            In d (list_ascii_of_string s).
Proof.
  unfold str_replace. induction s as [|d rest [IH1 IH2]]; [cbn; tauto|].
  cbn [replace_from String.prefix String.length Nat.sub].
  destruct (ascii_dec c d) as [->|Hne].
  - destruct rest; cbn [String.prefix String.append]; (split; [exact IH1|]);
      intros e He; right; now apply IH2.
  - cbn [list_ascii_of_string]. split.
    + intros [E|E]; [congruence | now apply IH1].
    + intros e [E|E]; [now left | right; now apply IH2].
Qed.

Lemma substitute_items_cases (items : list (string * colour)) (content : string) :
  substitute_items items content
  = match items with
    | [] => Ok content
    | _ :: _ => Raise AttributeError
    end.
Proof. destruct items; reflexivity. Qed.

Lemma substitute_themes_empty (themes : list palette) (content : string) :
  Forall (fun t => palette_iter t = Ok []) themes ->
  substitute_themes themes content = Ok content.
Proof.
  induction 1 as [|t rest Ht _ IH]; [reflexivity|].
  cbn [substitute_themes]. rewrite Ht. cbn. exact IH.
Qed.

Lemma substitute_themes_entries (themes : list palette) (content : string) :
  Forall (fun t => t <> PlainClass) themes ->
  Exists (fun t => exists item rest, palette_iter t = Ok (item :: rest)) themes ->
  substitute_themes themes content = Raise AttributeError.
Proof.
  intros Hall Hex. induction Hall as [|t rest Ht _ IH]; [inversion Hex|].
  cbn [substitute_themes].
  destruct (palette_iter_cases t) as [[E _] | (ns & base & _ & inh & E & _)];
    [contradiction|].
  rewrite E. cbn [mbind result_bind]. rewrite substitute_items_cases.
  destruct (colours ns ++ inh) as [|item items] eqn:El; [|reflexivity].
  cbn [mbind result_bind]. apply IH.
  inversion Hex as [? ? (item & items & Ei) | ? ? Hrest]; subst; [|exact Hrest].
  rewrite E in Ei. discriminate.
Qed.

(** X9.  [export_color_theme] cannot substitute: the items it iterates
    are tuples, and [colour.name] raises [AttributeError] on the first
    one.  With the reference file present and the themes palette
    classes of which at least one enumerates a colour, the call raises
    [AttributeError] and writes nothing; with the file missing it
    raises [FileNotFoundError], and without [use_themes] it raises
    [AttributeError] too. *)
Theorem export_fails_on_first_entry :
  (forall fs self out content themes,
     fs (ref_filename self) = Some content ->
     ref_themes self = Some themes ->
     Forall (fun t => t <> PlainClass) themes ->
     Exists (fun t => exists item rest, palette_iter t = Ok (item :: rest)) themes ->
     export_color_theme fs self out = Failed (Python AttributeError)) /\
  (forall fs self out,
     fs (ref_filename self) = None ->
     export_color_theme fs self out = Failed FileNotFoundError) /\
  (forall fs name out content,
     fs name = Some content ->
     export_color_theme fs (ThemeReference name) out = Failed (Python AttributeError)).
Proof.
  split; [|split].
  - intros fs self out content themes Ef Et Hall Hex. unfold export_color_theme.
    rewrite Ef, Et. now rewrite substitute_themes_entries.
  - intros fs self out Ef. unfold export_color_theme. now rewrite Ef.
  - intros fs name out content Ef. unfold export_color_theme. cbn. now rewrite Ef.
Qed.

(** The main program: the reference file and the palette [Palette]. *)
Lemma export_fails_on_first_entry_witness :
  let fs : files := fun p => if String.eqb p "reference.json" then Some "{}"%string else None in
  export_color_theme fs (use_themes (ThemeReference "reference.json") [Palette])
    "color-theme.json"
  = Failed (Python AttributeError).
Proof.
  intros fs.
  apply (proj1 export_fails_on_first_entry fs
           (use_themes (ThemeReference "reference.json") [Palette])
           "color-theme.json"%string "{}"%string [Palette]).
  - reflexivity.
  - reflexivity.
  - repeat constructor. discriminate.
  - constructor. do 2 eexists. reflexivity.
Defined.



(** ** The outcomes of [rgba.to_hsla] *)

(** [round] gives the even integer [n] exactly on [[n - 1/2, n + 1/2]]. *)
Lemma py_round_even_iff (n : Z) (y : Q) :
  Z.even n = true ->
  (py_round y = n <-> inject_Z n - (1 # 2) <= y <= inject_Z n + (1 # 2)).
Proof.
  intros Hev. split.
  - intros <-. apply py_round_near.
  - intros [Hlo Hhi]. unfold py_round.
    destruct (Qlt_le_dec y (inject_Z n)) as [Hlt | Hge].
    + assert (Ef : Qfloor y = (n - 1)%Z).
      { apply Qfloor_unique. unfold Z.sub. rewrite inject_Z_plus.
        change (inject_Z (- (1))) with (-1). lra. }
      rewrite Ef. unfold Z.sub at 1. rewrite inject_Z_plus.
      change (inject_Z (- (1))) with (-1).
      assert (Hodd : Z.even (n - 1) = false).
      { rewrite Z.even_sub, Hev. reflexivity. }
      destruct (Qcompare_spec (y - (inject_Z n + -1)) (1 # 2)) as [E|E|E].
      * rewrite Hodd. lia.
      * lra.
      * lia.
    + assert (Ef : Qfloor y = n) by (apply Qfloor_unique; lra).
      rewrite Ef.
      destruct (Qcompare_spec (y - inject_Z n) (1 # 2)) as [E|E|E].
      * now rewrite Hev.
      * reflexivity.
      * lra.
Qed.

(** The largest and the smallest normalised channel are the largest
    and the smallest channel, normalised. *)
Lemma py_max3_bytes (r g b : Z) :
  py_max3 (inject_Z r / 255) (inject_Z g / 255) (inject_Z b / 255)
  == inject_Z (Z.max r (Z.max g b)) / 255.
Proof.
  destruct (py_max3_spec (inject_Z r / 255) (inject_Z g / 255) (inject_Z b / 255))
    as (M1 & M2 & M3 & Mc).
  assert (K : forall x y : Z, (x <= y)%Z -> inject_Z x / 255 <= inject_Z y / 255).
  { intros x y H. apply inject_Z_le in H. unfold Qdiv. change (/ 255) with (1 # 255). lra. }
  apply Qle_antisym.
  - destruct Mc as [-> | [-> | ->]]; apply K; lia.
  - destruct (Z.max_spec r (Z.max g b)) as [[_ ->] | [_ ->]]; [|exact M1].
    destruct (Z.max_spec g b) as [[_ ->] | [_ ->]]; assumption.
Qed.

Lemma py_min3_bytes (r g b : Z) :
  py_min3 (inject_Z r / 255) (inject_Z g / 255) (inject_Z b / 255)
  == inject_Z (Z.min r (Z.min g b)) / 255.
Proof.
  destruct (py_min3_spec (inject_Z r / 255) (inject_Z g / 255) (inject_Z b / 255))
    as (M1 & M2 & M3 & Mc).
  assert (K : forall x y : Z, (x <= y)%Z -> inject_Z x / 255 <= inject_Z y / 255).
  { intros x y H. apply inject_Z_le in H. unfold Qdiv. change (/ 255) with (1 # 255). lra. }
  apply Qle_antisym.
  - destruct (Z.min_spec r (Z.min g b)) as [[_ ->] | [_ ->]]; [exact M1|].
    destruct (Z.min_spec g b) as [[_ ->] | [_ ->]]; assumption.
  - destruct Mc as [-> | [-> | ->]]; apply K; lia.
Qed.

(** The hue expression of [to_hsla] never reaches its [else None]. *)
Lemma hue_expr_returns (R G B : Q) :
  exists x, hue_expr R G B (py_max3 R G B) (py_max3 R G B - py_min3 R G B) = Ok x.
Proof.
  destruct (py_max3_spec R G B) as (_ & _ & _ & Mc).
  unfold hue_expr, py_div.
  destruct (Qeq_bool (py_max3 R G B - py_min3 R G B) 0); [eauto|].
  destruct (Qeq_bool (py_max3 R G B) R) eqn:Er; [cbn; eauto|].
  destruct (Qeq_bool (py_max3 R G B) G) eqn:Eg; [cbn; eauto|].
  destruct (Qeq_bool (py_max3 R G B) B) eqn:Eb; [cbn; eauto|].
  apply Qeq_bool_false in Er, Eg, Eb.
  destruct Mc as [E | [E | E]]; rewrite E in *; exfalso; [apply Er | apply Eg | apply Eb];
    reflexivity.
Qed.

(** The lightness that [to_hsla] rounds, for the sum [s] of the largest
    and the smallest channel: the divisor [1 - |2L - 1|] of the
    saturation is 0 exactly for [s <= 2] and [s >= 508], and at least
    0.02 otherwise. *)
Lemma lightness_divisor (s : Z) (L : Q) :
  (0 <= s <= 510)%Z ->
  L == py_round2 (inject_Z s / 510) ->
  0 <= L <= 1 /\
  ((s <= 2 \/ 508 <= s)%Z -> 1 - Qabs (2 * L - 1) == 0) /\
  ((2 < s < 508)%Z -> 1 # 50 <= 1 - Qabs (2 * L - 1) <= 1).
Proof.
  intros Hs EL. unfold py_round2 in EL.
  set (y := inject_Z s / 510 * 100) in EL.
  assert (Ey : y == inject_Z s * (10 # 51)).
  { unfold y, Qdiv. change (/ 510) with (1 # 510). ring. }
  assert (Hs0 : 0 <= inject_Z s <= 510).
  { destruct Hs as [H1 H2]. apply inject_Z_le in H1, H2.
    change (inject_Z 0) with 0 in H1. change (inject_Z 510) with 510 in H2. lra. }
  assert (Hk : (0 <= py_round y <= 100)%Z).
  { apply py_round_between. change (inject_Z 0) with 0. change (inject_Z 100) with 100. lra. }
  assert (HL : 0 <= L <= 1).
  { destruct Hk as [K1 K2]. apply inject_Z_le in K1, K2.
    change (inject_Z 0) with 0 in K1. change (inject_Z 100) with 100 in K2.
    rewrite EL. unfold Qdiv. change (/ 100) with (1 # 100). lra. }
  split; [exact HL|]. split.
  - intros [H | H].
    + assert (K : py_round y = 0%Z).
      { apply py_round_even_iff; [reflexivity|]. apply inject_Z_le in H.
        change (inject_Z 2) with 2 in H. change (inject_Z 0) with 0. lra. }
      assert (E0 : L == 0) by (rewrite EL, K; reflexivity).
      rewrite E0. reflexivity.
    + assert (K : py_round y = 100%Z).
      { apply py_round_even_iff; [reflexivity|]. apply inject_Z_le in H.
        change (inject_Z 508) with 508 in H. change (inject_Z 100) with 100. lra. }
      assert (E1 : L == 1) by (rewrite EL, K; reflexivity).
      rewrite E1. reflexivity.
  - intros [H1 H2].
    assert (K : (1 <= py_round y <= 99)%Z).
    { split.
      - change 1%Z with (py_round (30 # 51)). apply py_round_mono.
        assert (H3 : (3 <= s)%Z) by lia. apply inject_Z_le in H3.
        change (inject_Z 3) with 3 in H3. lra.
      - change 99%Z with (py_round (5070 # 51)). apply py_round_mono.
        assert (H3 : (s <= 507)%Z) by lia. apply inject_Z_le in H3.
        change (inject_Z 507) with 507 in H3. lra. }
    destruct K as [K1 K2]. apply inject_Z_le in K1, K2.
    change (inject_Z 1) with 1 in K1. change (inject_Z 99) with 99 in K2.
    assert (HL' : 1 # 100 <= L <= 99 # 100).
    { rewrite EL. unfold Qdiv. change (/ 100) with (1 # 100). lra. }
    destruct (Qabs_cases (2 * L - 1)) as [[P1 P2] | [P1 P2]]; rewrite P2; lra.
Qed.

(** The hue rounds to 360 exactly when red is the largest channel,
    blue exceeds green and does so by at most a 120th of the range. *)
Lemma hue_rounds_to_360 (R G B x : Q) :
  hue_expr R G B (py_max3 R G B) (py_max3 R G B - py_min3 R G B) = Ok x ->
  (py_round x = 360%Z <-> (B <= R /\ G < B /\ 120 * (B - G) <= R - G)).
Proof.
  destruct (py_max3_spec R G B) as (M1 & M2 & M3 & _).
  destruct (py_min3_spec R G B) as (N1 & N2 & N3 & Nc).
  remember (py_max3 R G B) as C_max eqn:EM. remember (py_min3 R G B) as C_min eqn:EN.
  clear EM EN. unfold hue_expr.
  assert (Hlow : forall y, y <= 300 -> py_round y <> 360%Z).
  { intros y Hy E. pose proof (py_round_mono y 300 Hy) as K.
    change 300 with (inject_Z 300) in K. rewrite py_round_inject in K. lia. }
  destruct (Qeq_bool (C_max - C_min) 0) eqn:Ed.
  { apply Qeq_bool_iff in Ed. intros [= <-]. split.
    - intros E. exfalso. revert E. apply Hlow. lra.
    - intros (_ & K & _). lra. }
  apply Qeq_bool_false in Ed.
  assert (Hd : 0 < C_max - C_min).
  { destruct (Qlt_le_dec 0 (C_max - C_min)) as [H|H]; [exact H|]. exfalso. apply Ed. lra. }
  destruct (Qeq_bool C_max R) eqn:Er.
  { apply Qeq_bool_iff in Er.
    destruct (py_div (G - B) (C_max - C_min)) as [q|] eqn:Eq; [|discriminate].
    apply py_div_ok in Eq as (_ & _ & Eq). cbn. intros [= <-].
    pose proof (ratio_bounds q _ _ Hd Eq ltac:(lra)) as Hq.
    pose proof (ratio_sign q _ _ Hd Eq) as Hs.
    unfold py_mod.
    destruct (Qlt_le_dec q 0) as [Hneg | Hpos].
    - rewrite (Qfloor_unique (-1)).
      2:{ unfold Qdiv. change (/ 6) with (1 # 6). change (inject_Z (-1)) with (-1). lra. }
      change (inject_Z (-1)) with (-1).
      assert (HGB : G < B) by (destruct (Qlt_le_dec G B); [assumption|]; lra).
      assert (Emin : C_min == G) by (destruct Nc as [-> | [-> | ->]]; lra).
      rewrite (py_round_even_iff 360) by reflexivity. change (inject_Z 360) with 360.
      split.
      + intros [K _]. repeat split; try lra. nra.
      + intros (_ & _ & K). split; [|lra].
        destruct (Qlt_le_dec q (- (1 # 120))) as [C | C]; [exfalso; nra | lra].
    - split.
      + intros E. exfalso. revert E. apply Hlow.
        rewrite (Qfloor_unique 0).
        2:{ unfold Qdiv. change (/ 6) with (1 # 6). change (inject_Z 0) with 0. lra. }
        change (inject_Z 0) with 0. lra.
      + intros (_ & K & _). lra. }
  apply Qeq_bool_false in Er.
  assert (HR : R < C_max).
  { destruct (Qlt_le_dec R C_max) as [H|H]; [exact H|]. exfalso. apply Er. lra. }
  destruct (Qeq_bool C_max G) eqn:Eg.
  { apply Qeq_bool_iff in Eg.
    destruct (py_div (B - R) (C_max - C_min)) as [q|] eqn:Eq; [|discriminate].
    apply py_div_ok in Eq as (_ & _ & Eq). cbn. intros [= <-].
    pose proof (ratio_bounds q _ _ Hd Eq ltac:(lra)) as Hq.
    split.
    - intros E. exfalso. revert E. apply Hlow. lra.
    - intros (K1 & K2 & _). lra. }
  destruct (Qeq_bool C_max B) eqn:Eb; [|discriminate].
  apply Qeq_bool_iff in Eb.
  destruct (py_div (R - G) (C_max - C_min)) as [q|] eqn:Eq; [|discriminate].
  apply py_div_ok in Eq as (_ & _ & Eq). cbn. intros [= <-].
  pose proof (ratio_bounds q _ _ Hd Eq ltac:(lra)) as Hq.
  split.
  - intros E. exfalso. revert E. apply Hlow. lra.
  - intros (K1 & _). lra.
Qed.

Lemma wrap_condition_bytes (r g b : Z) :
  (inject_Z b / 255 <= inject_Z r / 255 /\ inject_Z g / 255 < inject_Z b / 255 /\
   120 * (inject_Z b / 255 - inject_Z g / 255) <= inject_Z r / 255 - inject_Z g / 255)
  <-> (b <= r /\ g < b /\ 120 * (b - g) <= r - g)%Z.
Proof.
  rewrite (Zle_Qle b r), (Zlt_Qlt g b), (Zle_Qle (120 * (b - g)) (r - g)).
  unfold Z.sub.
  rewrite ?inject_Z_plus, ?inject_Z_mult, ?inject_Z_plus, ?inject_Z_opp.
  change (inject_Z 120) with 120. unfold Qdiv. change (/ 255) with (1 # 255).
  split; intros (H1 & H2 & H3); repeat split; lra.
Qed.





Lemma format_02x_length (n : Z) :
  (0 <= n <= 255)%Z -> String.length (format_02x n) = 2%nat.
Proof.
  intros Hn.
  pose (P := fun n => Nat.eqb (String.length (format_02x n)) 2).
  assert (HP : P n = true) by (apply below_256; [vm_compute; reflexivity | exact Hn]).
  now apply Nat.eqb_eq in HP.
Qed.

Lemma string_app_inv (a a' b b' : string) :
  String.length a = String.length a' ->
  (a ++ b = a' ++ b')%string -> a = a' /\ b = b'.
Proof.
  revert a'. induction a as [|x a IH]; intros [|x' a'] Hl E; cbn in *; try discriminate.
  - now split.
  - injection E as -> E. destruct (IH a' ltac:(lia) E) as [-> ->]. now split.
Qed.

Lemma string_length_app (a b : string) :
  String.length (a ++ b) = (String.length a + String.length b)%nat.
Proof. induction a as [|x a IH]; simpl; [reflexivity | f_equal; exact IH]. Qed.

Lemma to_hex_channels_set {A : Type} `{Colour A} (self : A) (c : rgba) (t : string) :
  to_rgba self = Ok (Some c) -> to_hex self = Ok t ->
  exists r g b, rgba_r c = Some r /\ rgba_g c = Some g /\ rgba_b c = Some b.
Proof.
  intros E Et. unfold to_hex in Et. rewrite E in Et. cbn in Et.
  destruct (rgba_a c) as [a|]; [destruct (Qeq_bool a 1)|]; cbn in Et;
    destruct (rgba_r c) as [r|]; try discriminate;
    destruct (rgba_g c) as [g|]; try discriminate;
    destruct (rgba_b c) as [b|]; try discriminate; now exists r, g, b.
Qed.

(** X13.  A hex code determines the channels: when two colours print
    the same text, their [to_rgba()] values, if validated, have the same
    red, green and blue.  The text has 7 characters when the alpha is
    unset or 1, and 9 otherwise. *)
Theorem to_hex_determines_channels
    (A B : Type) (CA : Colour A) (CB : Colour B) (x : A) (y : B)
    (c1 c2 : rgba) (t : string) :
  to_rgba x = Ok (Some c1) -> to_rgba y = Ok (Some c2) ->
  rgba_valid c1 -> rgba_valid c2 ->
  to_hex x = Ok t -> to_hex y = Ok t ->
  rgba_r c1 = rgba_r c2 /\ rgba_g c1 = rgba_g c2 /\ rgba_b c1 = rgba_b c2 /\
  String.length t
    = match rgba_a c1 with
      | Some a => if Qeq_bool a 1 then 7%nat else 9%nat
      | None => 7%nat
      end.
Proof.
  intros E1 E2 V1 V2 T1 T2.
  destruct (to_hex_channels_set x c1 t E1 T1) as (r1 & g1 & b1 & Er1 & Eg1 & Eb1).
  destruct (to_hex_channels_set y c2 t E2 T2) as (r2 & g2 & b2 & Er2 & Eg2 & Eb2).
  rewrite (to_hex_unfold x c1 r1 g1 b1 E1 Er1 Eg1 Eb1) in T1.
  rewrite (to_hex_unfold y c2 r2 g2 b2 E2 Er2 Eg2 Eb2) in T2.
  destruct V1 as (Hr1 & Hg1 & Hb1 & Ha1), V2 as (Hr2 & Hg2 & Hb2 & _).
  rewrite Er1 in Hr1. rewrite Eg1 in Hg1. rewrite Eb1 in Hb1.
  rewrite Er2 in Hr2. rewrite Eg2 in Hg2. rewrite Eb2 in Hb2.
  cbn in Hr1, Hg1, Hb1, Hr2, Hg2, Hb2.
  injection T1 as T1. rewrite <- T1 in T2 |- *. injection T2 as T2.
  pose proof (format_02x_length r1 Hr1) as Lr1. pose proof (format_02x_length g1 Hg1) as Lg1.
  pose proof (format_02x_length b1 Hb1) as Lb1. pose proof (format_02x_length r2 Hr2) as Lr2.
  pose proof (format_02x_length g2 Hg2) as Lg2. pose proof (format_02x_length b2 Hb2) as Lb2.
  apply string_app_inv in T2 as [Fr T2]; [|congruence].
  apply string_app_inv in T2 as [Fg T2]; [|congruence].
  apply string_app_inv in T2 as [Fb _]; [|congruence].
  assert (Kr : Some r2 = Some r1)
    by (rewrite <- (format_02x_byte r2 Hr2), <- (format_02x_byte r1 Hr1); now rewrite Fr).
  assert (Kg : Some g2 = Some g1)
    by (rewrite <- (format_02x_byte g2 Hg2), <- (format_02x_byte g1 Hg1); now rewrite Fg).
  assert (Kb : Some b2 = Some b1)
    by (rewrite <- (format_02x_byte b2 Hb2), <- (format_02x_byte b1 Hb1); now rewrite Fb).
  rewrite Er1, Er2, Eg1, Eg2, Eb1, Eb2.
  repeat split; try congruence.
  cbn [String.length]. rewrite !string_length_app, Lr1, Lg1, Lb1.
  destruct (rgba_a c1) as [a|]; [|reflexivity].
  destruct (Qeq_bool a 1); [reflexivity|].
  cbn in Ha1. now rewrite (format_02x_length _ (alpha_byte a Ha1)).
Qed.

(** [hsla(0, 100, 50)] and [rgba(255, 0, 0)] both print [#ff0000]. *)
Lemma to_hex_determines_channels_witness :
  rgba_r (mk_rgba (Some 255%Z) (Some 0%Z) (Some 0%Z) None)
    = rgba_r (mk_rgba (Some 255%Z) (Some 0%Z) (Some 0%Z) None) /\
  String.length "#ff0000" = 7%nat.
Proof.
  pose proof (to_hex_determines_channels hsla rgba _ _
                (mk_hsla (Some 0%Z) (Some 1) (Some (1 # 2)) None)
                (mk_rgba (Some 255%Z) (Some 0%Z) (Some 0%Z) None)
                (mk_rgba (Some 255%Z) (Some 0%Z) (Some 0%Z) None)
                (mk_rgba (Some 255%Z) (Some 0%Z) (Some 0%Z) None)
                "#ff0000"
                eq_refl eq_refl
                ltac:(repeat split; cbn; lia) ltac:(repeat split; cbn; lia)
                eq_refl eq_refl) as (Hr & _ & _ & Hl).
  split; [exact Hr | exact Hl].
Defined.
